(** * liblight/lights.c : the shared tri-colour LED of the lights HAL

    A shallow embedding of [src/liblight/lights.c].  The sysfs nodes the
    HAL writes to are a finite map from path to the integer last stored in
    the node; the outcome of every [open]/[write] pair is decided by an
    oracle (the kernel), so that failing sinks are part of the model.  The
    file-scope variables of the C file are the fields of one record that
    is threaded through the code by a small state monad. *)

From Stdlib Require Import ZArith List Lia Bool.
From stdpp Require Import gmap strings list fin_maps.

Local Open Scope Z_scope.

(** ** Data model *)

(** [struct light_state_t] of <hardware/lights.h>: [color] is an
    [unsigned int], the other four fields are [int]. *)
Record light_state_t := LightState {
  color : Z;
  flashMode : Z;
  flashOnMS : Z;
  flashOffMS : Z;
  brightnessMode : Z
}.

(** The five logical lights [open_lights] knows about. *)
Inductive light_id :=
| LIGHT_ID_BACKLIGHT
| LIGHT_ID_BUTTONS
| LIGHT_ID_NOTIFICATIONS
| LIGHT_ID_ATTENTION
| LIGHT_ID_BATTERY.

(** [struct light_device_t]; a [NULL] device pointer is [None]. *)
Record light_device_t := LightDevice { dev_light : light_id }.

Definition RED_LED_FILE : string := "/sys/class/leds/led:rgb_red/brightness".
Definition GREEN_LED_FILE : string := "/sys/class/leds/led:rgb_green/brightness".
Definition BLUE_LED_FILE : string := "/sys/class/leds/led:rgb_blue/brightness".
Definition LCD_FILE : string := "/sys/class/leds/lcd-backlight/brightness".
Definition RED_BLINK_FILE : string := "/sys/class/leds/led:rgb_red/rgbbreath".
Definition GREEN_BLINK_FILE : string := "/sys/class/leds/led:rgb_green/rgbbreath".
Definition BLUE_BLINK_FILE : string := "/sys/class/leds/led:rgb_blue/rgbbreath".
Definition BUTTONS_FILE : string := "/sys/class/leds/button-backlight/brightness".

(** What the kernel answers to one [open(path, O_RDWR)] followed by one
    [write].  [errno] is the value read by the [return -errno] statement;
    POSIX error numbers are positive. *)
Inductive io_result :=
| IoOk
| OpenFail (errno : positive)
| WriteFail (errno : positive).

(** The oracle: the outcome of the [n]-th call of [write_int] when it is
    made on [path]. *)
Definition world := nat -> string -> io_result.

Inductive log_entry :=
| ALOGE_open (path : string)
| ALOGD_speaker (mode colorRGB red green blue on off : Z).

(** The file-scope state of lights.c together with the sysfs nodes.
    [attempts] is the history of the calls of [write_int] (path and
    value), oldest first. *)
Record hal := Hal {
  g_attention : light_state_t;
  g_notification : light_state_t;
  g_battery : light_state_t;
  sysfs : gmap string Z;
  already_warned : Z;
  logcat : list log_entry;
  attempts : list (string * Z)
}.

(** ** The state monad of the HAL *)

Definition M (A : Type) : Type := hal -> A * hal.

Definition ret {A} (a : A) : M A := fun st => (a, st).

Definition bind {A B} (m : M A) (k : A -> M B) : M B :=
  fun st => let (a, st') := m st in k a st'.

Notation "'do' x <- m ; k" := (bind m (fun x => k))
  (at level 10, x name, m at level 100, k at level 200).
Notation "m ;; k" := (bind m (fun _ => k))
  (at level 100, k at level 200, right associativity).

Definition get : M hal := fun st => (st, st).

Definition ALOG (e : log_entry) : M unit := fun st =>
  (tt, Hal (g_attention st) (g_notification st) (g_battery st) (sysfs st)
           (already_warned st) (logcat st ++ [e]) (attempts st)).

Definition set_already_warned (v : Z) : M unit := fun st =>
  (tt, Hal (g_attention st) (g_notification st) (g_battery st) (sysfs st)
           v (logcat st) (attempts st)).

Definition set_g_attention (s : light_state_t) : M unit := fun st =>
  (tt, Hal s (g_notification st) (g_battery st) (sysfs st)
           (already_warned st) (logcat st) (attempts st)).

Definition set_g_notification (s : light_state_t) : M unit := fun st =>
  (tt, Hal (g_attention st) s (g_battery st) (sysfs st)
           (already_warned st) (logcat st) (attempts st)).

Definition set_g_battery (s : light_state_t) : M unit := fun st =>
  (tt, Hal (g_attention st) (g_notification st) s (sysfs st)
           (already_warned st) (logcat st) (attempts st)).

(** [open] + [snprintf] + [write] + [close]: the oracle is asked once, the
    call is recorded in [attempts], and on success the node holds [value]. *)
Definition sys_open_write (w : world) (path : string) (value : Z) : M io_result :=
  fun st =>
    let r := w (length (attempts st)) path in
    let fs := match r with IoOk => <[path := value]> (sysfs st) | _ => sysfs st end in
    (r, Hal (g_attention st) (g_notification st) (g_battery st) fs
            (already_warned st) (logcat st) (attempts st ++ [(path, value)])).

(** The lock.  lights.c declares exactly one mutex. *)
Inductive mutex := g_lock.

(** A HAL entry point as seen by the scheduler: a finite sequence of lock
    operations and of pieces of code that run on the shared state. *)
Inductive thread (A : Type) : Type :=
| Return (a : A)
| pthread_mutex_lock (m : mutex) (k : thread A)
| pthread_mutex_unlock (m : mutex) (k : thread A)
| Run {B : Type} (c : M B) (k : B -> thread A).

Arguments Return {A} a.
Arguments pthread_mutex_lock {A} m k.
Arguments pthread_mutex_unlock {A} m k.
Arguments Run {A B} c k.

Definition EINVAL : Z := 22.

(** ** The functions of lights.c *)

Section Lights.

Variable w : world.

Definition write_int (path : string) (value : Z) : M Z :=
  do r <- sys_open_write w path value;
  match r with
  | IoOk => ret 0
  | WriteFail errno => ret (- Z.pos errno)
  | OpenFail errno =>
      do st <- get;
      (if already_warned st =? 0
       then ALOG (ALOGE_open path) ;; set_already_warned 1
       else ret tt) ;;
      ret (- Z.pos errno)
  end.

Definition is_lit (state : light_state_t) : Z :=
  Z.land (color state) 0x00ffffff.

Definition rgb_to_brightness (state : light_state_t) : Z :=
  let color := Z.land (color state) 0x00ffffff in
  Z.shiftr (77 * Z.land (Z.shiftr color 16) 0xff
            + 150 * Z.land (Z.shiftr color 8) 0xff
            + 29 * Z.land color 0xff) 8.

Definition set_battery_light_locked (dev : option light_device_t)
    (state : light_state_t) : M Z :=
  let colorRGB := color state in
  let red := Z.land (Z.shiftr colorRGB 16) 0xFF in
  let green := Z.land (Z.shiftr colorRGB 8) 0xFF in
  let blue := Z.land colorRGB 0xFF in
  write_int RED_LED_FILE red ;;
  write_int GREEN_LED_FILE green ;;
  write_int BLUE_LED_FILE blue ;;
  ret 0.

Definition set_speaker_light_locked (dev : option light_device_t)
    (state : option light_state_t) : M Z :=
  match dev with
  | None => ret (-1)
  | Some _ =>
    match state with
    | None =>
        write_int RED_LED_FILE 0 ;;
        write_int GREEN_LED_FILE 0 ;;
        write_int BLUE_LED_FILE 0 ;;
        write_int RED_BLINK_FILE 0 ;;
        write_int GREEN_BLINK_FILE 0 ;;
        write_int BLUE_BLINK_FILE 0 ;;
        ret 0
    | Some state =>
        let blink := if negb (flashOnMS state =? 1) then 1 else 0 in
        let colorRGB := color state in
        let red := Z.land (Z.shiftr colorRGB 16) 0xFF in
        let green := Z.land (Z.shiftr colorRGB 8) 0xFF in
        let blue := Z.land colorRGB 0xFF in
        ALOG (ALOGD_speaker (flashMode state) colorRGB red green blue
                            (flashOnMS state) (flashOffMS state)) ;;
        (if negb (blink =? 0) then
           write_int RED_LED_FILE 0 ;;
           write_int GREEN_LED_FILE 0 ;;
           write_int BLUE_LED_FILE 0 ;;
           (if negb (red =? 0) then write_int RED_BLINK_FILE blink ;; ret tt
            else ret tt) ;;
           (if negb (green =? 0) then write_int GREEN_BLINK_FILE blink ;; ret tt
            else ret tt) ;;
           (if negb (blue =? 0) then write_int BLUE_BLINK_FILE blink ;; ret tt
            else ret tt)
         else
           write_int RED_LED_FILE red ;;
           write_int GREEN_LED_FILE green ;;
           write_int BLUE_LED_FILE blue ;;
           ret tt) ;;
        ret 0
    end
  end.

Definition handle_speaker_light_locked (dev : option light_device_t) : M unit :=
  set_speaker_light_locked dev None ;;
  do st <- get;
  if negb (is_lit (g_attention st) =? 0) then
    set_speaker_light_locked dev (Some (g_attention st)) ;; ret tt
  else if negb (is_lit (g_notification st) =? 0) then
    set_speaker_light_locked dev (Some (g_notification st)) ;; ret tt
  else
    set_battery_light_locked dev (g_battery st) ;; ret tt.

Definition set_light_backlight (dev : option light_device_t)
    (state : light_state_t) : thread Z :=
  let brightness := rgb_to_brightness state in
  pthread_mutex_lock g_lock (
  Run (write_int LCD_FILE brightness) (fun err =>
  pthread_mutex_unlock g_lock (
  Return err))).

Definition set_light_buttons (dev : option light_device_t)
    (state : light_state_t) : thread Z :=
  let brightness := rgb_to_brightness state in
  pthread_mutex_lock g_lock (
  Run (write_int BUTTONS_FILE brightness) (fun err =>
  pthread_mutex_unlock g_lock (
  Return err))).

Definition set_light_attention (dev : option light_device_t)
    (state : light_state_t) : thread Z :=
  pthread_mutex_lock g_lock (
  Run (set_g_attention state) (fun _ =>
  Run (handle_speaker_light_locked dev) (fun _ =>
  pthread_mutex_unlock g_lock (
  Return 0)))).

Definition set_light_notifications (dev : option light_device_t)
    (state : light_state_t) : thread Z :=
  pthread_mutex_lock g_lock (
  Run (set_g_notification state) (fun _ =>
  Run (handle_speaker_light_locked dev) (fun _ =>
  pthread_mutex_unlock g_lock (
  Return 0)))).

Definition set_light_battery (dev : option light_device_t)
    (state : light_state_t) : thread Z :=
  pthread_mutex_lock g_lock (
  Run (set_g_battery state) (fun _ =>
  Run (handle_speaker_light_locked dev) (fun _ =>
  pthread_mutex_unlock g_lock (
  Return 0)))).

(** The [set_light] member [open_lights] stores in the device it makes. *)
Definition set_light (id : light_id) :
    option light_device_t -> light_state_t -> thread Z :=
  match id with
  | LIGHT_ID_BACKLIGHT => set_light_backlight
  | LIGHT_ID_BUTTONS => set_light_buttons
  | LIGHT_ID_NOTIFICATIONS => set_light_notifications
  | LIGHT_ID_ATTENTION => set_light_attention
  | LIGHT_ID_BATTERY => set_light_battery
  end.


(** The five [LIGHT_ID_*] strings of <hardware/lights.h>. *)
Variable light_name : light_id -> string.

(** [open_lights]: the [strcmp] chain picks the [set_light] member of the
    new device, in the order of the source; an unknown name is [-EINVAL]
    and no device. *)
Definition open_lights (name : string) : M (Z * option light_device_t) :=
  if bool_decide (light_name LIGHT_ID_BACKLIGHT = name) then
    ret (0, Some (LightDevice LIGHT_ID_BACKLIGHT))
  else if bool_decide (light_name LIGHT_ID_BUTTONS = name) then
    ret (0, Some (LightDevice LIGHT_ID_BUTTONS))
  else if bool_decide (light_name LIGHT_ID_NOTIFICATIONS = name) then
    ret (0, Some (LightDevice LIGHT_ID_NOTIFICATIONS))
  else if bool_decide (light_name LIGHT_ID_ATTENTION = name) then
    ret (0, Some (LightDevice LIGHT_ID_ATTENTION))
  else if bool_decide (light_name LIGHT_ID_BATTERY = name) then
    ret (0, Some (LightDevice LIGHT_ID_BATTERY))
  else
    ret (- EINVAL, None).

End Lights.

(** A call that runs with no other thread around: the lock is free when
    it is asked for, and the pieces of code run one after the other. *)
Fixpoint call {A} (t : thread A) : M A :=
  match t with
  | Return a => ret a
  | pthread_mutex_lock _ k => call k
  | pthread_mutex_unlock _ k => call k
  | Run c k => do b <- c; call (k b)
  end.

(** The state a process starts in: the three slots are zero-initialised
    statics, nothing was logged and nothing was written; the content of
    the sysfs nodes is whatever the kernel holds. *)
Definition light_off : light_state_t := LightState 0 0 0 0 0.

Definition boot (fs : gmap string Z) : hal :=
  Hal light_off light_off light_off fs 0 [] [].

(** ** Threads calling into the HAL

    A configuration is the owner of each mutex, the shared state and the
    calls in flight; thread [i] is the [i]-th call of the pool.  A thread
    that asks for a held mutex cannot move. *)

Global Instance mutex_eq_dec : EqDecision mutex.
Proof. solve_decision. Defined.

Record config := Config {
  owner : mutex -> option nat;
  shared : hal;
  pool : list (thread Z)
}.

Definition set_owner (m : mutex) (o : option nat) (f : mutex -> option nat) :
    mutex -> option nat :=
  fun m' => if decide (m' = m) then o else f m'.

Definition step_thread (i : nat) (c : config) : option config :=
  match pool c !! i with
  | None => None
  | Some (Return _) => None
  | Some (pthread_mutex_lock m k) =>
      match owner c m with
      | None => Some (Config (set_owner m (Some i) (owner c)) (shared c)
                             (<[i := k]> (pool c)))
      | Some _ => None
      end
  | Some (pthread_mutex_unlock m k) =>
      match owner c m with
      | Some j =>
          if decide (j = i)
          then Some (Config (set_owner m None (owner c)) (shared c)
                            (<[i := k]> (pool c)))
          else None
      | None => None
      end
  | Some (Run cmd k) =>
      let (b, st) := cmd (shared c) in
      Some (Config (owner c) st (<[i := k b]> (pool c)))
  end.

Fixpoint schedule (sched : list nat) (c : config) : option config :=
  match sched with
  | [] => Some c
  | i :: sched' =>
      match step_thread i c with
      | Some c' => schedule sched' c'
      | None => None
      end
  end.

Definition start (st : hal) (calls : list (thread Z)) : config :=
  Config (fun _ => None) st calls.

(** Thread [i] waits for a mutex some thread holds. *)
Definition blocked (i : nat) (c : config) : bool :=
  match pool c !! i with
  | Some (pthread_mutex_lock m _) => bool_decide (is_Some (owner c m))
  | _ => false
  end.

(** Thread [i] is about to run code on the shared state. *)
Definition at_run (i : nat) (c : config) : bool :=
  match pool c !! i with
  | Some (Run _ _) => true
  | _ => false
  end.

(** The mutexes a call asks for, in order, if its code runs to the end
    from [st] with no other thread around. *)
Fixpoint locks_taken {A} (t : thread A) (st : hal) : list mutex :=
  match t with
  | Return _ => []
  | pthread_mutex_lock m k => m :: locks_taken k st
  | pthread_mutex_unlock _ k => locks_taken k st
  | Run c k => let (b, st') := c st in locks_taken (k b) st'
  end.

(** A call that touches the shared state only between taking [g_lock]
    and giving it back.  [held] tells whether the call holds the lock
    when it reaches [t]. *)
Fixpoint guarded (held : bool) {A} (t : thread A) : Prop :=
  match t with
  | Return _ => held = false
  | pthread_mutex_lock _ k => held = false /\ guarded true k
  | pthread_mutex_unlock _ k => held = true /\ guarded false k
  | Run _ k => held = true /\ forall b, guarded true (k b)
  end.

(** Every call of the pool is where the owner of the lock says it is. *)
Definition lock_invariant (c : config) : Prop :=
  forall i t, pool c !! i = Some t ->
    guarded (bool_decide (owner c g_lock = Some i)) t.

(** ** What the spec says the LED shows *)

Definition low24 (c : Z) : Z := c mod 2 ^ 24.
Definition red_of (c : Z) : Z := low24 c / 2 ^ 16.
Definition green_of (c : Z) : Z := (low24 c / 2 ^ 8) mod 2 ^ 8.
Definition blue_of (c : Z) : Z := low24 c mod 2 ^ 8.

Definition isLit (s : light_state_t) : bool := negb (low24 (color s) =? 0).

(** The six nodes of the tri-colour LED. *)
Record led_output := Led {
  solid_red : Z; solid_green : Z; solid_blue : Z;
  blink_red : Z; blink_green : Z; blink_blue : Z
}.

Definition physical_output (fs : gmap string Z) : option led_output :=
  r ← fs !! RED_LED_FILE; g ← fs !! GREEN_LED_FILE; b ← fs !! BLUE_LED_FILE;
  br ← fs !! RED_BLINK_FILE; bg ← fs !! GREEN_BLINK_FILE;
  bb ← fs !! BLUE_BLINK_FILE;
  Some (Led r g b br bg bb).

Definition render_solid (s : light_state_t) : led_output :=
  Led (red_of (color s)) (green_of (color s)) (blue_of (color s)) 0 0 0.

Definition render_blink (s : light_state_t) : led_output :=
  Led 0 0 0
      (if red_of (color s) =? 0 then 0 else 1)
      (if green_of (color s) =? 0 then 0 else 1)
      (if blue_of (color s) =? 0 then 0 else 1).

Inductive slot := Attention | Notification | Battery.

Definition winner (st : hal) : slot :=
  if isLit (g_attention st) then Attention
  else if isLit (g_notification st) then Notification
  else Battery.

Definition slot_state (sl : slot) (st : hal) : light_state_t :=
  match sl with
  | Attention => g_attention st
  | Notification => g_notification st
  | Battery => g_battery st
  end.

Definition render (sl : slot) (s : light_state_t) : led_output :=
  match sl with
  | Battery => render_solid s
  | _ => if flashOnMS s =? 1 then render_solid s else render_blink s
  end.

Definition arbitrate (st : hal) : led_output :=
  render (winner st) (slot_state (winner st) st).

(** ** The writes a piece of code makes *)

Definition accepts (r : io_result) : bool :=
  match r with IoOk => true | _ => false end.

(** The sysfs nodes after the calls [ws] of [write_int], the first of
    which is call number [n]. *)
Fixpoint replay (w : world) (n : nat) (ws : list (string * Z))
    (fs : gmap string Z) : gmap string Z :=
  match ws with
  | [] => fs
  | (p, v) :: ws' =>
      replay w (S n) ws' (if accepts (w n p) then <[p := v]> fs else fs)
  end.

(** From [st], the code [m] calls [write_int] exactly on [ws], in this
    order, and leaves the three slots alone. *)
Definition issues (w : world) {A} (m : M A) (st : hal)
    (ws : list (string * Z)) : Prop :=
  attempts (m st).2 = attempts st ++ ws /\
  sysfs (m st).2 = replay w (length (attempts st)) ws (sysfs st) /\
  g_attention (m st).2 = g_attention st /\
  g_notification (m st).2 = g_notification st /\
  g_battery (m st).2 = g_battery st.

Definition clear_writes : list (string * Z) :=
  [(RED_LED_FILE, 0); (GREEN_LED_FILE, 0); (BLUE_LED_FILE, 0);
   (RED_BLINK_FILE, 0); (GREEN_BLINK_FILE, 0); (BLUE_BLINK_FILE, 0)].

Definition solid_writes (c : Z) : list (string * Z) :=
  [(RED_LED_FILE, red_of c); (GREEN_LED_FILE, green_of c);
   (BLUE_LED_FILE, blue_of c)].

Definition blink_writes (c : Z) : list (string * Z) :=
  [(RED_LED_FILE, 0); (GREEN_LED_FILE, 0); (BLUE_LED_FILE, 0)]
  ++ (if red_of c =? 0 then [] else [(RED_BLINK_FILE, 1)])
  ++ (if green_of c =? 0 then [] else [(GREEN_BLINK_FILE, 1)])
  ++ (if blue_of c =? 0 then [] else [(BLUE_BLINK_FILE, 1)]).

Definition color_sinks : list string :=
  [RED_LED_FILE; GREEN_LED_FILE; BLUE_LED_FILE;
   RED_BLINK_FILE; GREEN_BLINK_FILE; BLUE_BLINK_FILE].

Definition blink_sinks : list string :=
  [RED_BLINK_FILE; GREEN_BLINK_FILE; BLUE_BLINK_FILE].

(** The writes of one arbitration run, as the spec describes them. *)
Definition speaker_writes (s : light_state_t) : list (string * Z) :=
  if flashOnMS s =? 1 then solid_writes (color s) else blink_writes (color s).

Definition render_writes (sl : slot) (s : light_state_t) : list (string * Z) :=
  match sl with
  | Battery => solid_writes (color s)
  | _ => speaker_writes s
  end.

Definition handle_writes (dev : option light_device_t) (st : hal) :
    list (string * Z) :=
  match dev with
  | Some _ => clear_writes ++ render_writes (winner st) (slot_state (winner st) st)
  | None =>
      match winner st with
      | Battery => solid_writes (color (g_battery st))
      | _ => []
      end
  end.

(** The value the writes [ws] leave in node [k], if one of them lands
    there; the first of [ws] is call number [n] of [write_int]. *)
Fixpoint landed (w : world) (n : nat) (ws : list (string * Z)) (k : string) :
    option Z :=
  match ws with
  | [] => None
  | (p, v) :: ws' =>
      match landed w (S n) ws' k with
      | Some v' => Some v'
      | None => if accepts (w n p) && bool_decide (p = k) then Some v else None
      end
  end.

(** The slot a colour light stores its state in. *)
Definition slot_of (id : light_id) : option slot :=
  match id with
  | LIGHT_ID_ATTENTION => Some Attention
  | LIGHT_ID_NOTIFICATIONS => Some Notification
  | LIGHT_ID_BATTERY => Some Battery
  | _ => None
  end.

Definition store_slot (sl : slot) (s : light_state_t) : M unit :=
  match sl with
  | Attention => set_g_attention s
  | Notification => set_g_notification s
  | Battery => set_g_battery s
  end.

(** The world in which no write ever fails. *)
Definition healthy : world := fun _ _ => IoOk.

(** The three colours of the LED, each with a node for its steady value
    and a node for its blink mode. *)
Inductive channel := Red | Green | Blue.

Definition component (ch : channel) (c : Z) : Z :=
  match ch with Red => red_of c | Green => green_of c | Blue => blue_of c end.

Definition solid_sink (ch : channel) : string :=
  match ch with
  | Red => RED_LED_FILE | Green => GREEN_LED_FILE | Blue => BLUE_LED_FILE
  end.

Definition blink_sink (ch : channel) : string :=
  match ch with
  | Red => RED_BLINK_FILE | Green => GREEN_BLINK_FILE | Blue => BLUE_BLINK_FILE
  end.

(** The path of the first call of [ws] whose [open] fails. *)
Fixpoint first_open_failure (w : world) (n : nat) (ws : list (string * Z)) :
    option string :=
  match ws with
  | [] => None
  | (p, _) :: ws' =>
      match w n p with
      | OpenFail _ => Some p
      | _ => first_open_failure w (S n) ws'
      end
  end.

(** The inputs of the scenarios of the spec. *)
Definition attention_dev : light_device_t := LightDevice LIGHT_ID_ATTENTION.
Definition red_flash : light_state_t := LightState 0xFF0000 0 500 0 0.
Definition green_steady : light_state_t := LightState 0x00FF00 0 1 0 0.
Definition blue_battery : light_state_t := LightState 0x0000FF 0 0 0 0.
Definition battery_112233 : light_state_t := LightState 0x112233 0 500 500 0.

(** What [write_int] returns for an answer of the kernel. *)
Definition errno_code (r : io_result) : Z :=
  match r with
  | IoOk => 0
  | OpenFail errno => - Z.pos errno
  | WriteFail errno => - Z.pos errno
  end.

Definition ENOENT : positive := 2%positive.
Definition EACCES : positive := 13%positive.

(** A kernel without any of the nodes, and one whose red and green nodes
    of the LED are missing. *)
Definition unplugged : world := fun _ _ => OpenFail ENOENT.

Definition no_red_green : world := fun _ p =>
  if bool_decide (p = RED_LED_FILE) || bool_decide (p = GREEN_LED_FILE)
  then OpenFail ENOENT else IoOk.

(** Every write on a node of the LED goes through. *)
Definition led_accepts (w : world) : Prop :=
  forall n p, In p color_sinks -> w n p = IoOk.

(** Whether a node takes a write does not change over time. *)
Definition steady (w : world) : Prop :=
  forall n n' p, accepts (w n p) = accepts (w n' p).

(** The error lines of the log. *)
Definition errors (l : list log_entry) : list string :=
  omap (fun e => match e with ALOGE_open p => Some p | _ => None end) l.

Fixpoint write_all (w : world) (ws : list (string * Z)) : M unit :=
  match ws with
  | [] => ret tt
  | (p, v) :: ws' => write_int w p v ;; write_all w ws'
  end.

(** ** Sequences of calls *)

(** One call into the HAL: the light, the device pointer and the state
    the caller passes. *)
Record hal_call := HalCall {
  call_light : light_id;
  call_dev : option light_device_t;
  call_state : light_state_t
}.

Definition run_call (w : world) (c : hal_call) : M Z :=
  call (set_light w (call_light c) (call_dev c) (call_state c)).

Fixpoint run_calls (w : world) (cs : list hal_call) : M unit :=
  match cs with
  | [] => ret tt
  | c :: cs' => run_call w c ;; run_calls w cs'
  end.

(** The LED shows what the arbitration of the store asks for. *)
Definition consistent (st : hal) : Prop :=
  physical_output (sysfs st) = Some (arbitrate st).

(** The names Android gives to the five lights. *)
Definition android_names (id : light_id) : string :=
  match id with
  | LIGHT_ID_BACKLIGHT => "backlight"
  | LIGHT_ID_BUTTONS => "buttons"
  | LIGHT_ID_NOTIFICATIONS => "notifications"
  | LIGHT_ID_ATTENTION => "attention"
  | LIGHT_ID_BATTERY => "battery"
  end.

(** The writes a call makes, by the light it is made on. *)
Definition call_writes (id : light_id) (dev : option light_device_t)
    (s : light_state_t) (st' : hal) : list (string * Z) :=
  match id with
  | LIGHT_ID_BACKLIGHT => [(LCD_FILE, rgb_to_brightness s)]
  | LIGHT_ID_BUTTONS => [(BUTTONS_FILE, rgb_to_brightness s)]
  | _ => handle_writes dev st'
  end.

(** The nodes a call on a light may write. *)
Definition light_sinks (id : light_id) : list string :=
  match id with
  | LIGHT_ID_BACKLIGHT => [LCD_FILE]
  | LIGHT_ID_BUTTONS => [BUTTONS_FILE]
  | _ => color_sinks
  end.

(** The value an output gives to the steady node and to the blink node of
    a colour. *)
Definition steady_value (ch : channel) (o : led_output) : Z :=
  match ch with
  | Red => solid_red o | Green => solid_green o | Blue => solid_blue o
  end.

Definition blink_value (ch : channel) (o : led_output) : Z :=
  match ch with
  | Red => blink_red o | Green => blink_green o | Blue => blink_blue o
  end.

Global Instance slot_eq_decision : EqDecision slot.
Proof. solve_decision. Defined.

(** How the error log may grow between two states: not at all, or by the
    one line that turns the flag from 0 to 1. *)
Definition log_step (st st' : hal) : Prop :=
  (already_warned st' = already_warned st /\
   errors (logcat st') = errors (logcat st)) \/
  (already_warned st = 0 /\ already_warned st' = 1 /\
   exists p, errors (logcat st') = errors (logcat st) ++ [p]).

(** ** Calls one after the other *)

(** Where a call is: it has not asked for the lock yet, it holds the
    lock, or it has given the lock back and has nothing left to do. *)
Inductive phase := Waiting | Holding | Finished.

(** A call that takes the lock once, runs its code, gives the lock back
    and returns. *)
Fixpoint shape (ph : phase) {A} (t : thread A) : Prop :=
  match t with
  | Return _ => ph = Finished
  | pthread_mutex_lock _ k => ph = Waiting /\ shape Holding k
  | pthread_mutex_unlock _ k => ph = Holding /\ shape Finished k
  | Run _ k => ph = Holding /\ forall b, shape Holding (k b)
  end.

(** The calls of the pool numbered by [order], run to the end one after
    the other; each with what it returns. *)
Fixpoint run_in_order (calls : list (thread Z)) (order : list nat) :
    M (list (nat * Z)) :=
  match order with
  | [] => ret []
  | i :: order' =>
      match calls !! i with
      | Some t =>
          do r <- call t;
          do rs <- run_in_order calls order';
          ret ((i, r) :: rs)
      | None => run_in_order calls order'
      end
  end.

(** What a configuration reached from [start st0 calls] looks like:
    the calls numbered by [order] have run to the end, one after the
    other and in this order; the owner of the lock, if there is one, is
    part of the way through its call; the other calls have not begun. *)
Definition serial_invariant (st0 : hal) (calls : list (thread Z))
    (c : config) : Prop :=
  exists order,
    NoDup order /\
    length (pool c) = length calls /\
    (forall i, In i order ->
       exists r, In (i, r) (run_in_order calls order st0).1 /\
                 pool c !! i = Some (Return r)) /\
    (forall i, ~ In i order -> owner c g_lock <> Some i ->
       pool c !! i = calls !! i) /\
    match owner c g_lock with
    | None => shared c = (run_in_order calls order st0).2
    | Some j =>
        ~ In j order /\
        exists t0 t,
          calls !! j = Some t0 /\ pool c !! j = Some t /\ shape Holding t /\
          call t (shared c) = call t0 (run_in_order calls order st0).2
    end.

(** ** Colour components *)

Lemma low24_range c : 0 <= low24 c < 2 ^ 24.
Proof. unfold low24. apply Z.mod_pos_bound. lia. Qed.

Lemma low24_idem c : low24 (low24 c) = low24 c.
Proof. unfold low24. apply Z.mod_mod. lia. Qed.

Lemma red_of_range c : 0 <= red_of c <= 255.
Proof.
  unfold red_of. pose proof (low24_range c) as H.
  change (2 ^ 24) with 16777216 in H. change (2 ^ 16) with 65536.
  split; [apply Z.div_pos; lia|].
  apply Z.lt_succ_r, Z.div_lt_upper_bound; lia.
Qed.

Lemma green_of_range c : 0 <= green_of c <= 255.
Proof.
  unfold green_of.
  pose proof (Z.mod_pos_bound (low24 c / 2 ^ 8) (2 ^ 8)). lia.
Qed.

Lemma blue_of_range c : 0 <= blue_of c <= 255.
Proof.
  unfold blue_of. pose proof (Z.mod_pos_bound (low24 c) (2 ^ 8)). lia.
Qed.

Lemma land_mask24 c : Z.land c 0x00ffffff = low24 c.
Proof. unfold low24. exact (Z.land_ones c 24 ltac:(lia)). Qed.

Lemma land_mask8 c : Z.land c 0xFF = c mod 2 ^ 8.
Proof. exact (Z.land_ones c 8 ltac:(lia)). Qed.

Lemma red_component c : Z.land (Z.shiftr c 16) 0xFF = red_of c.
Proof.
  rewrite land_mask8, Z.shiftr_div_pow2 by lia. unfold red_of, low24.
  change (2 ^ 24) with 16777216. change (2 ^ 16) with 65536.
  change (2 ^ 8) with 256.
  Z.div_mod_to_equations. lia.
Qed.

Lemma green_component c : Z.land (Z.shiftr c 8) 0xFF = green_of c.
Proof.
  rewrite land_mask8, Z.shiftr_div_pow2 by lia. unfold green_of, low24.
  change (2 ^ 24) with 16777216. change (2 ^ 8) with 256.
  Z.div_mod_to_equations. lia.
Qed.

Lemma blue_component c : Z.land c 0xFF = blue_of c.
Proof.
  rewrite land_mask8. unfold blue_of, low24.
  change (2 ^ 24) with 16777216. change (2 ^ 8) with 256.
  Z.div_mod_to_equations. lia.
Qed.

Lemma red_of_low24 c : red_of (low24 c) = red_of c.
Proof. unfold red_of. by rewrite low24_idem. Qed.

Lemma green_of_low24 c : green_of (low24 c) = green_of c.
Proof. unfold green_of. by rewrite low24_idem. Qed.

Lemma blue_of_low24 c : blue_of (low24 c) = blue_of c.
Proof. unfold blue_of. by rewrite low24_idem. Qed.

(** The components put back together are the low 24 bits. *)
Lemma low24_components c :
  low24 c = 65536 * red_of c + 256 * green_of c + blue_of c.
Proof.
  unfold red_of, green_of, blue_of. generalize (low24 c). intros x.
  change (2 ^ 16) with 65536. change (2 ^ 8) with 256.
  Z.div_mod_to_equations. lia.
Qed.

Lemma is_lit_low24 s : is_lit s = low24 (color s).
Proof. apply land_mask24. Qed.

Lemma is_lit_isLit s : negb (is_lit s =? 0) = isLit s.
Proof. unfold isLit. by rewrite is_lit_low24. Qed.

Lemma isLit_components s :
  isLit s = false <->
  red_of (color s) = 0 /\ green_of (color s) = 0 /\ blue_of (color s) = 0.
Proof.
  unfold isLit. rewrite negb_false_iff, Z.eqb_eq, low24_components.
  pose proof (red_of_range (color s)). pose proof (green_of_range (color s)).
  pose proof (blue_of_range (color s)). lia.
Qed.

(** ** The brightness of the single-colour lights *)

Lemma rgb_to_brightness_eq s :
  rgb_to_brightness s =
  Z.shiftr (77 * red_of (color s) + 150 * green_of (color s)
            + 29 * blue_of (color s)) 8.
Proof.
  unfold rgb_to_brightness.
  rewrite red_component, green_component, blue_component, land_mask24.
  by rewrite red_of_low24, green_of_low24, blue_of_low24.
Qed.

(** C4: [rgb_to_brightness] is [(77*R + 150*G + 29*B) >> 8] on the three
    8-bit components of the low 24 bits of [color]; the result lies in
    [0,255]; and it is the same when the bits of [color] above the low 24
    are dropped and the other four fields are replaced by anything. *)
Theorem C4_rgb_to_brightness (s : light_state_t) :
  rgb_to_brightness s =
    Z.shiftr (77 * red_of (color s) + 150 * green_of (color s)
              + 29 * blue_of (color s)) 8 /\
  0 <= rgb_to_brightness s <= 255 /\
  forall mode on off bmode,
    rgb_to_brightness (LightState (low24 (color s)) mode on off bmode)
    = rgb_to_brightness s.
Proof.
  split; [apply rgb_to_brightness_eq|]. split.
  - rewrite rgb_to_brightness_eq, Z.shiftr_div_pow2 by lia.
    pose proof (red_of_range (color s)). pose proof (green_of_range (color s)).
    pose proof (blue_of_range (color s)). change (2 ^ 8) with 256.
    split; [apply Z.div_pos; lia|].
    apply Z.lt_succ_r, Z.div_lt_upper_bound; lia.
  - intros. rewrite !rgb_to_brightness_eq. simpl color.
    by rewrite red_of_low24, green_of_low24, blue_of_low24.
Qed.

(** ** The writes each function makes *)

Section Effects.

Variable w : world.

Lemma replay_app n ws1 ws2 fs :
  replay w n (ws1 ++ ws2) fs
  = replay w (n + length ws1)%nat ws2 (replay w n ws1 fs).
Proof.
  revert n fs. induction ws1 as [|[p v] ws1 IH]; intros n fs; simpl.
  - by rewrite Nat.add_0_r.
  - rewrite IH. f_equal. lia.
Qed.

Lemma issues_ret {A} (a : A) st : issues w (ret a) st [].
Proof. unfold issues; simpl. by rewrite app_nil_r. Qed.

Lemma issues_get st : issues w get st [].
Proof. unfold issues; simpl. by rewrite app_nil_r. Qed.

Lemma issues_ALOG e st : issues w (ALOG e) st [].
Proof. unfold issues; simpl. by rewrite app_nil_r. Qed.

Lemma issues_bind {A B} (m : M A) (k : A -> M B) st ws1 ws2 ws :
  issues w m st ws1 ->
  issues w (k (m st).1) (m st).2 ws2 ->
  ws = ws1 ++ ws2 ->
  issues w (bind m k) st ws.
Proof.
  unfold issues, bind. destruct (m st) as [a st1]; simpl.
  intros (Ha & Hf & H1 & H2 & H3) (Ha' & Hf' & H1' & H2' & H3') ->.
  rewrite Ha', Hf', H1', H2', H3', Ha, Hf, replay_app, length_app.
  by rewrite app_assoc.
Qed.

Lemma issues_write_int p v st : issues w (write_int w p v) st [(p, v)].
Proof.
  unfold issues, write_int, bind, sys_open_write; simpl.
  destruct (w (length (attempts st)) p) as [|e|e]; simpl; [done| |done].
  by destruct (already_warned st =? 0).
Qed.

Lemma issues_battery dev s st :
  issues w (set_battery_light_locked w dev s) st (solid_writes (color s)).
Proof.
  unfold set_battery_light_locked, solid_writes.
  rewrite red_component, green_component, blue_component.
  eapply issues_bind; [apply issues_write_int| |reflexivity].
  eapply issues_bind; [apply issues_write_int| |reflexivity].
  eapply issues_bind; [apply issues_write_int| |reflexivity].
  apply issues_ret.
Qed.

Lemma issues_speaker_null state st :
  issues w (set_speaker_light_locked w None state) st [].
Proof. apply issues_ret. Qed.

Lemma issues_speaker_clear d st :
  issues w (set_speaker_light_locked w (Some d) None) st clear_writes.
Proof.
  unfold set_speaker_light_locked, clear_writes.
  do 6 (eapply issues_bind; [apply issues_write_int| |reflexivity]).
  apply issues_ret.
Qed.

Lemma issues_blink_enable p (c : Z) st :
  issues w (if negb (c =? 0) then write_int w p 1 ;; ret tt else ret tt) st
         (if c =? 0 then [] else [(p, 1)]).
Proof.
  destruct (c =? 0); simpl; [apply issues_ret|].
  eapply issues_bind; [apply issues_write_int|apply issues_ret|reflexivity].
Qed.

Lemma issues_speaker_state d s st :
  issues w (set_speaker_light_locked w (Some d) (Some s)) st (speaker_writes s).
Proof.
  unfold set_speaker_light_locked, speaker_writes.
  rewrite red_component, green_component, blue_component.
  eapply issues_bind; [apply issues_ALOG| |reflexivity].
  eapply issues_bind; [|apply issues_ret|symmetry; apply app_nil_r].
  destruct (flashOnMS s =? 1); simpl.
  - unfold solid_writes.
    do 3 (eapply issues_bind; [apply issues_write_int| |reflexivity]).
    apply issues_ret.
  - unfold blink_writes.
    do 3 (eapply issues_bind; [apply issues_write_int| |reflexivity]).
    eapply issues_bind; [apply issues_blink_enable| |reflexivity].
    eapply issues_bind; [apply issues_blink_enable| |reflexivity].
    apply issues_blink_enable.
Qed.

Lemma issues_handle dev st :
  issues w (handle_speaker_light_locked w dev) st (handle_writes dev st).
Proof.
  unfold handle_speaker_light_locked, handle_writes.
  set (rw := render_writes (winner st) (slot_state (winner st) st)).
  assert (Hrest : forall st1,
    g_attention st1 = g_attention st ->
    g_notification st1 = g_notification st ->
    g_battery st1 = g_battery st ->
    forall d, issues w
      (if negb (is_lit (g_attention st1) =? 0)
       then set_speaker_light_locked w d (Some (g_attention st1)) ;; ret tt
       else if negb (is_lit (g_notification st1) =? 0)
       then set_speaker_light_locked w d (Some (g_notification st1)) ;; ret tt
       else set_battery_light_locked w d (g_battery st1) ;; ret tt) st1
      (match d with
       | Some _ => rw
       | None => match winner st with
                 | Battery => solid_writes (color (g_battery st))
                 | _ => []
                 end
       end)).
  { intros st1 -> -> -> d. subst rw. rewrite !is_lit_isLit. unfold winner.
    destruct (isLit (g_attention st)); [|destruct (isLit (g_notification st))];
      simpl.
    - eapply issues_bind; [|apply issues_ret|symmetry; apply app_nil_r].
      destruct d; [apply issues_speaker_state|apply issues_speaker_null].
    - eapply issues_bind; [|apply issues_ret|symmetry; apply app_nil_r].
      destruct d; [apply issues_speaker_state|apply issues_speaker_null].
    - eapply issues_bind; [apply issues_battery|apply issues_ret|].
      rewrite app_nil_r. by destruct d. }
  destruct dev as [d|].
  - pose proof (issues_speaker_clear d st) as Hc.
    eapply issues_bind; [exact Hc| |reflexivity].
    destruct Hc as (_ & _ & Ha & Hn & Hb).
    eapply (issues_bind _ _ _ [] rw); [apply issues_get| |reflexivity].
    unfold get; cbn [fst snd]. by apply (Hrest _ Ha Hn Hb (Some d)).
  - pose proof (issues_speaker_null None st) as Hc.
    eapply (issues_bind _ _ _ [] _); [exact Hc| |reflexivity].
    destruct Hc as (_ & _ & Ha & Hn & Hb).
    eapply (issues_bind _ _ _ [] _); [apply issues_get| |reflexivity].
    unfold get; cbn [fst snd]. by apply (Hrest _ Ha Hn Hb None).
Qed.

Lemma replay_lookup n ws fs k :
  replay w n ws fs !! k = from_option Some (fs !! k) (landed w n ws k).
Proof.
  revert n fs. induction ws as [|[p v] ws IH]; intros n fs;
    cbn [replay landed from_option]; [done|].
  rewrite IH. destruct (landed w (S n) ws k); cbn [from_option]; [done|].
  destruct (accepts (w n p)); cbn [andb]; [|done].
  rewrite lookup_insert.
  case_bool_decide; [by rewrite decide_True|by rewrite decide_False].
Qed.

Lemma landed_healthy n ws k :
  led_accepts w -> Forall (fun pv => In pv.1 color_sinks) ws ->
  landed w n ws k = landed healthy 0 ws k.
Proof.
  intros Hw Hws. generalize 0%nat. revert n.
  induction Hws as [|[p v] ws Hp _ IH]; intros n n'; cbn [landed]; [done|].
  by rewrite (IH (S n) (S n')), (Hw n p Hp).
Qed.

Lemma landed_steady n n' ws k :
  steady w -> landed w n ws k = landed w n' ws k.
Proof.
  intros Hw. revert n n'.
  induction ws as [|[p v] ws IH]; intros n n'; cbn [landed]; [done|].
  by rewrite (IH (S n) (S n')), (Hw n n' p).
Qed.

(** Replaying the same writes a second time changes nothing when the
    nodes are steady. *)
Lemma replay_twice n n' ws fs :
  steady w -> replay w n' ws (replay w n ws fs) = replay w n ws fs.
Proof.
  intros Hw. apply map_eq. intros k. rewrite !replay_lookup.
  rewrite (landed_steady n' n ws k Hw).
  by destruct (landed w n ws k).
Qed.

Lemma red_led_sink : In RED_LED_FILE color_sinks.
Proof. by left. Qed.
Lemma green_led_sink : In GREEN_LED_FILE color_sinks.
Proof. right. by left. Qed.
Lemma blue_led_sink : In BLUE_LED_FILE color_sinks.
Proof. do 2 right. by left. Qed.
Lemma red_blink_sink : In RED_BLINK_FILE color_sinks.
Proof. do 3 right. by left. Qed.
Lemma green_blink_sink : In GREEN_BLINK_FILE color_sinks.
Proof. do 4 right. by left. Qed.
Lemma blue_blink_sink : In BLUE_BLINK_FILE color_sinks.
Proof. do 5 right. by left. Qed.

Ltac grounded :=
  cbn [app];
  repeat (constructor;
          [cbn [fst];
           first [exact red_led_sink | exact green_led_sink
                 | exact blue_led_sink | exact red_blink_sink
                 | exact green_blink_sink | exact blue_blink_sink]|]);
  constructor.

Lemma grounded_clear : Forall (fun pv => In pv.1 color_sinks) clear_writes.
Proof. unfold clear_writes. grounded. Qed.

Lemma grounded_render sl s :
  Forall (fun pv => In pv.1 color_sinks) (render_writes sl s).
Proof.
  assert (Forall (fun pv => In pv.1 color_sinks) (solid_writes (color s)))
    by (unfold solid_writes; grounded).
  assert (Forall (fun pv => In pv.1 color_sinks) (blink_writes (color s))).
  { unfold blink_writes.
    destruct (red_of (color s) =? 0), (green_of (color s) =? 0),
      (blue_of (color s) =? 0); grounded. }
  destruct sl; cbn [render_writes]; unfold speaker_writes;
    by destruct (flashOnMS s =? 1).
Qed.

(** Evaluates [landed healthy 0 ws k] on a list of writes whose paths are
    known. *)
Ltac land :=
  repeat match goal with
  | |- context [landed healthy 0 ?ws ?k] =>
      let v := eval vm_compute in (landed healthy 0 ws k) in
      replace (landed healthy 0 ws k) with v by (vm_compute; reflexivity)
  end.

(** What the LED shows after a clear followed by the render of [s]. *)
Lemma output_after_render n sl s fs :
  led_accepts w ->
  physical_output (replay w n (clear_writes ++ render_writes sl s) fs)
  = Some (render sl s).
Proof.
  intros Hw. unfold physical_output. rewrite !replay_lookup.
  rewrite !(landed_healthy n _ _ Hw)
    by (apply Forall_app; split; [apply grounded_clear|apply grounded_render]).
  assert (Hsolid : forall r g b,
    let ws := clear_writes ++ [(RED_LED_FILE, r); (GREEN_LED_FILE, g);
                               (BLUE_LED_FILE, b)] in
    (r' ← from_option Some (fs !! RED_LED_FILE) (landed healthy 0 ws RED_LED_FILE);
     g' ← from_option Some (fs !! GREEN_LED_FILE) (landed healthy 0 ws GREEN_LED_FILE);
     b' ← from_option Some (fs !! BLUE_LED_FILE) (landed healthy 0 ws BLUE_LED_FILE);
     br ← from_option Some (fs !! RED_BLINK_FILE) (landed healthy 0 ws RED_BLINK_FILE);
     bg ← from_option Some (fs !! GREEN_BLINK_FILE) (landed healthy 0 ws GREEN_BLINK_FILE);
     bb ← from_option Some (fs !! BLUE_BLINK_FILE) (landed healthy 0 ws BLUE_BLINK_FILE);
     Some (Led r' g' b' br bg bb)) = Some (Led r g b 0 0 0)).
  { intros r g b ws. subst ws. unfold clear_writes. land. reflexivity. }
  assert (Hblink :
    let ws := clear_writes ++ blink_writes (color s) in
    (r' ← from_option Some (fs !! RED_LED_FILE) (landed healthy 0 ws RED_LED_FILE);
     g' ← from_option Some (fs !! GREEN_LED_FILE) (landed healthy 0 ws GREEN_LED_FILE);
     b' ← from_option Some (fs !! BLUE_LED_FILE) (landed healthy 0 ws BLUE_LED_FILE);
     br ← from_option Some (fs !! RED_BLINK_FILE) (landed healthy 0 ws RED_BLINK_FILE);
     bg ← from_option Some (fs !! GREEN_BLINK_FILE) (landed healthy 0 ws GREEN_BLINK_FILE);
     bb ← from_option Some (fs !! BLUE_BLINK_FILE) (landed healthy 0 ws BLUE_BLINK_FILE);
     Some (Led r' g' b' br bg bb)) = Some (render_blink s)).
  { intros ws. subst ws. unfold clear_writes, blink_writes, render_blink.
    destruct (red_of (color s) =? 0), (green_of (color s) =? 0),
      (blue_of (color s) =? 0); land; reflexivity. }
  destruct sl; cbn [render_writes render]; unfold speaker_writes;
    try destruct (flashOnMS s =? 1);
    first [exact Hblink | apply Hsolid].
Qed.

Lemma call_color id sl dev s st :
  slot_of id = Some sl ->
  call (set_light w id dev s) st
  = (0, (handle_speaker_light_locked w dev (store_slot sl s st).2).2).
Proof.
  destruct id; intros [= <-];
    cbn [set_light call store_slot];
    unfold set_light_notifications, set_light_attention, set_light_battery;
    cbn [call]; unfold bind at 1 2;
    unfold set_g_attention, set_g_notification, set_g_battery; cbn [snd];
    match goal with
    | |- context [handle_speaker_light_locked w dev ?x] =>
        by destruct (handle_speaker_light_locked w dev x)
    end.
Qed.

Lemma call_backlight dev s st :
  call (set_light_backlight w dev s) st
  = write_int w LCD_FILE (rgb_to_brightness s) st.
Proof.
  unfold set_light_backlight; cbn [call]. unfold bind.
  by destruct (write_int w LCD_FILE (rgb_to_brightness s) st).
Qed.

Lemma call_buttons dev s st :
  call (set_light_buttons w dev s) st
  = write_int w BUTTONS_FILE (rgb_to_brightness s) st.
Proof.
  unfold set_light_buttons; cbn [call]. unfold bind.
  by destruct (write_int w BUTTONS_FILE (rgb_to_brightness s) st).
Qed.

Lemma store_slot_spec sl s st :
  slot_state sl (store_slot sl s st).2 = s /\
  (forall sl', sl' <> sl ->
     slot_state sl' (store_slot sl s st).2 = slot_state sl' st) /\
  sysfs (store_slot sl s st).2 = sysfs st /\
  attempts (store_slot sl s st).2 = attempts st.
Proof.
  destruct sl; cbn; (split; [done|]); (split; [|done]);
    intros []; cbn; congruence.
Qed.

Lemma winner_ext st st' :
  g_attention st' = g_attention st ->
  g_notification st' = g_notification st ->
  g_battery st' = g_battery st ->
  winner st' = winner st /\ forall sl, slot_state sl st' = slot_state sl st.
Proof.
  intros Ha Hn Hb. unfold winner. rewrite Ha, Hn.
  split; [done|]. by intros [].
Qed.

Lemma handle_writes_ext dev st st' :
  g_attention st' = g_attention st ->
  g_notification st' = g_notification st ->
  g_battery st' = g_battery st ->
  handle_writes dev st' = handle_writes dev st.
Proof.
  intros Ha Hn Hb. destruct (winner_ext st st' Ha Hn Hb) as [Hw Hs].
  unfold handle_writes. by rewrite Hw, Hs, Hb.
Qed.

End Effects.

(** ** The LED after a call *)


Lemma LCD_not_led : ~ In LCD_FILE color_sinks.
Proof. intros H. repeat (destruct H as [H|H]; [discriminate H|]). exact H. Qed.

Lemma BUTTONS_not_led : ~ In BUTTONS_FILE color_sinks.
Proof. intros H. repeat (destruct H as [H|H]; [discriminate H|]). exact H. Qed.

Lemma physical_output_ext (fs fs' : gmap string Z) :
  (forall p, In p color_sinks -> fs' !! p = fs !! p) ->
  physical_output fs' = physical_output fs.
Proof.
  intros H. unfold physical_output.
  by rewrite (H _ red_led_sink), (H _ green_led_sink), (H _ blue_led_sink),
    (H _ red_blink_sink), (H _ green_blink_sink), (H _ blue_blink_sink).
Qed.

(** A colour call with a device: the store holds the new state and the
    sysfs nodes are those of before, with the clear and the render of the
    winner replayed on them. *)
Lemma color_call_effect (w : world) id sl dev s st :
  slot_of id = Some sl ->
  let st' := (call (set_light w id dev s) st).2 in
  let ws := handle_writes dev st' in
  slot_state sl st' = s /\
  (forall sl', sl' <> sl -> slot_state sl' st' = slot_state sl' st) /\
  attempts st' = attempts st ++ ws /\
  sysfs st' = replay w (length (attempts st)) ws (sysfs st).
Proof.
  intros Hid. rewrite (call_color w id sl dev s st Hid). cbn [snd].
  destruct (store_slot_spec sl s st) as (Hs & Ho & Hfs & Hat).
  set (st1 := (store_slot sl s st).2) in *.
  destruct (issues_handle w dev st1) as (Hat' & Hfs' & Ha & Hn & Hb).
  destruct (winner_ext st1 _ Ha Hn Hb) as [_ Hsl].
  rewrite (handle_writes_ext dev st1 _ Ha Hn Hb).
  rewrite !Hsl, Hat', Hfs', Hat, Hfs. repeat split; try done.
  intros sl' Hne. rewrite Hsl. by apply Ho.
Qed.




(** The three scenarios of the spec, run on a kernel that takes every
    write. *)
Example scenario_red_flash :
  physical_output
    (sysfs (call (set_light healthy LIGHT_ID_ATTENTION (Some attention_dev)
                            red_flash) (boot ∅)).2)
  = Some (Led 0 0 0 1 0 0).
Proof. vm_compute. reflexivity. Qed.

Example scenario_green_steady :
  let st := (call (set_light healthy LIGHT_ID_BATTERY (Some attention_dev)
                             blue_battery) (boot ∅)).2 in
  physical_output
    (sysfs (call (set_light healthy LIGHT_ID_NOTIFICATIONS
                            (Some attention_dev) green_steady) st).2)
  = Some (Led 0 255 0 0 0 0).
Proof. vm_compute. reflexivity. Qed.

Example scenario_battery_112233 :
  physical_output
    (sysfs (call (set_light healthy LIGHT_ID_BATTERY (Some attention_dev)
                            battery_112233) (boot ∅)).2)
  = Some (Led 0x11 0x22 0x33 0 0 0).
Proof. vm_compute. reflexivity. Qed.

(** An attention call without a device writes nothing: the LED keeps what
    the battery call before it left. *)
Example scenario_null_device :
  let st := (call (set_light healthy LIGHT_ID_BATTERY (Some attention_dev)
                             battery_112233) (boot ∅)).2 in
  physical_output
    (sysfs (call (set_light healthy LIGHT_ID_ATTENTION None red_flash) st).2)
  = Some (Led 0x11 0x22 0x33 0 0 0).
Proof. vm_compute. reflexivity. Qed.

(** ** Blink or steady *)

Lemma physical_output_lookup (fs : gmap string Z) o :
  physical_output fs = Some o ->
  forall ch,
    fs !! solid_sink ch
    = Some (match ch with
            | Red => solid_red o | Green => solid_green o
            | Blue => solid_blue o
            end) /\
    fs !! blink_sink ch
    = Some (match ch with
            | Red => blink_red o | Green => blink_green o
            | Blue => blink_blue o
            end).
Proof.
  intros H ch. revert H. unfold physical_output.
  destruct ch; cbn [solid_sink blink_sink];
    generalize (fs !! RED_LED_FILE) (fs !! GREEN_LED_FILE)
      (fs !! BLUE_LED_FILE) (fs !! RED_BLINK_FILE) (fs !! GREEN_BLINK_FILE)
      (fs !! BLUE_BLINK_FILE);
    intros [r|] [g|] [b|] [br|] [bg|] [bb|]; simpl; try discriminate;
    by intros [= <-].
Qed.

Ltac in_cases H :=
  cbn [In app] in H;
  repeat (destruct H as [H|H];
          [first [discriminate H | injection H as <-; reflexivity]|]);
  try contradiction.

Lemma blink_writes_spec c ch :
  (component ch c <> 0 -> In (blink_sink ch, 1) (blink_writes c)) /\
  (component ch c = 0 -> forall v, ~ In (blink_sink ch, v) (blink_writes c)) /\
  (forall v, In (solid_sink ch, v) (blink_writes c) -> v = 0).
Proof.
  unfold blink_writes.
  destruct (Z.eqb_spec (red_of c) 0) as [Hr|Hr],
    (Z.eqb_spec (green_of c) 0) as [Hg|Hg],
    (Z.eqb_spec (blue_of c) 0) as [Hb|Hb];
    destruct ch; cbn [component solid_sink blink_sink app];
    (split; [intros Hc; try contradiction;
             cbn [In]; repeat first [left; reflexivity | right]|]);
    (split; [intros Hc v H; try contradiction; in_cases H
            |intros v H; in_cases H]).
Qed.

Lemma speaker_wins st :
  winner st <> Battery ->
  render_writes (winner st) (slot_state (winner st) st)
  = speaker_writes (slot_state (winner st) st) /\
  render (winner st) (slot_state (winner st) st)
  = (if flashOnMS (slot_state (winner st) st) =? 1
     then render_solid (slot_state (winner st) st)
     else render_blink (slot_state (winner st) st)).
Proof. by destruct (winner st). Qed.

(** C2: when the attention or the notification state wins, a [flashOnMS]
    of exactly 1 gives the steady render: after the clear, the three
    components are written to the steady nodes and the blink nodes keep
    the 0 of the clear.  Any other [flashOnMS] gives the blink render:
    the blink node of every nonzero component is written 1 and its steady
    node stays 0; a zero component gets no write on its blink node at all
    and only zeros on its steady node. *)
Theorem C2_blink_or_steady (w : world) (d : light_device_t) (st : hal) :
  winner st <> Battery ->
  let s := slot_state (winner st) st in
  let st' := (handle_speaker_light_locked w (Some d) st).2 in
  exists rw,
    attempts st' = attempts st ++ clear_writes ++ rw /\
    (flashOnMS s = 1 ->
       rw = [(RED_LED_FILE, red_of (color s));
             (GREEN_LED_FILE, green_of (color s));
             (BLUE_LED_FILE, blue_of (color s))] /\
       (led_accepts w -> forall ch,
          sysfs st' !! solid_sink ch = Some (component ch (color s)) /\
          sysfs st' !! blink_sink ch = Some 0)) /\
    (flashOnMS s <> 1 ->
       forall ch,
         (component ch (color s) <> 0 -> In (blink_sink ch, 1) rw) /\
         (component ch (color s) = 0 ->
            forall v, ~ In (blink_sink ch, v) rw) /\
         (forall v, In (solid_sink ch, v) rw -> v = 0) /\
         (led_accepts w ->
            sysfs st' !! solid_sink ch = Some 0 /\
            sysfs st' !! blink_sink ch
            = Some (if component ch (color s) =? 0 then 0 else 1))).
Proof.
  intros Hwin s st'. subst s st'.
  destruct (issues_handle w (Some d) st) as (Hat & Hfs & _).
  destruct (speaker_wins st Hwin) as [Hrw Hrender].
  unfold handle_writes in Hat, Hfs. rewrite Hrw in Hat, Hfs.
  set (s := slot_state (winner st) st) in *.
  set (st' := (handle_speaker_light_locked w (Some d) st).2) in *.
  exists (speaker_writes s). split; [exact Hat|].
  assert (Hout : led_accepts w ->
            physical_output (sysfs st')
            = Some (if flashOnMS s =? 1 then render_solid s
                    else render_blink s)).
  { intros Hw. rewrite Hfs, <- Hrender, <- Hrw.
    by apply output_after_render. }
  unfold speaker_writes. split.
  - intros Hon. rewrite Hon in *. cbn [Z.eqb Pos.eqb] in *.
    split; [reflexivity|]. intros Hw ch.
    destruct (physical_output_lookup _ _ (Hout Hw) ch) as [H1 H2].
    rewrite H1, H2. by destruct ch.
  - intros Hon. apply Z.eqb_neq in Hon. rewrite Hon in *. intros ch.
    destruct (blink_writes_spec (color s) ch) as (Hb1 & Hb2 & Hb3).
    repeat (split; [assumption|]). intros Hw.
    destruct (physical_output_lookup _ _ (Hout Hw) ch) as [H1 H2].
    rewrite H1, H2. by destruct ch.
Qed.

(** The instance of C2 on red flashing attention: the blink node of red
    is enabled, its steady node is 0. *)
Lemma C2_blink_or_steady_witness :
  let st := (set_g_attention red_flash (boot ∅)).2 in
  let st' := (handle_speaker_light_locked healthy (Some attention_dev) st).2 in
  winner st <> Battery /\ flashOnMS red_flash <> 1 /\ led_accepts healthy /\
  sysfs st' !! RED_LED_FILE = Some 0 /\
  sysfs st' !! RED_BLINK_FILE
  = Some (if component Red (color red_flash) =? 0 then 0 else 1).
Proof.
  intros st st'.
  assert (Hwin : winner st <> Battery) by discriminate.
  assert (Hon : flashOnMS red_flash <> 1) by discriminate.
  assert (Hw : led_accepts healthy) by (by intros n p _).
  repeat (split; [assumption|]).
  destruct (C2_blink_or_steady healthy attention_dev st Hwin)
    as (rw & _ & _ & Hblink).
  destruct (Hblink Hon Red) as (_ & _ & _ & H).
  exact (H Hw).
Defined.

(** ** The battery fallback *)



(** ** Calling twice *)

Lemma slot_eq_dec (a b : slot) : {a = b} + {a <> b}.
Proof. decide equality. Qed.

(** C5: on nodes that are steady, a second call on a colour light with
    the state of the first call leaves the three slots and all the sysfs
    nodes, hence what the LED shows, as the first call left them. *)
Theorem C5_set_twice (w : world) (id : light_id) (sl : slot)
    (dev : option light_device_t) (s : light_state_t) (st : hal) :
  steady w -> slot_of id = Some sl ->
  let once := (call (set_light w id dev s) st).2 in
  let twice := (call (set_light w id dev s) once).2 in
  (forall sl', slot_state sl' twice = slot_state sl' once) /\
  sysfs twice = sysfs once /\
  physical_output (sysfs twice) = physical_output (sysfs once).
Proof.
  intros Hw Hid once twice.
  destruct (color_call_effect w id sl dev s st Hid) as (Hs1 & Ho1 & Hat1 & Hfs1).
  destruct (color_call_effect w id sl dev s once Hid)
    as (Hs2 & Ho2 & Hat2 & Hfs2).
  fold once in Hs1, Ho1, Hat1, Hfs1, Hs2, Ho2, Hat2, Hfs2.
  fold twice in Hs2, Ho2, Hat2, Hfs2.
  assert (Hsl : forall sl', slot_state sl' twice = slot_state sl' once).
  { intros sl'. destruct (slot_eq_dec sl' sl) as [->|Hne]; [congruence|].
    by apply Ho2. }
  assert (Hws : handle_writes dev twice = handle_writes dev once).
  { apply handle_writes_ext;
      [apply (Hsl Attention)|apply (Hsl Notification)|apply (Hsl Battery)]. }
  assert (Hfs : sysfs twice = sysfs once).
  { rewrite Hfs2, Hws, Hfs1. by apply replay_twice. }
  split; [exact Hsl|]. split; [exact Hfs|]. by rewrite Hfs.
Qed.

(** The instance of C5 on the second scenario of the spec, set twice. *)
Lemma C5_set_twice_witness :
  let st := (set_g_battery blue_battery (boot ∅)).2 in
  let once := (call (set_light healthy LIGHT_ID_NOTIFICATIONS
                               (Some attention_dev) green_steady) st).2 in
  let twice := (call (set_light healthy LIGHT_ID_NOTIFICATIONS
                                (Some attention_dev) green_steady) once).2 in
  steady healthy /\ sysfs twice = sysfs once.
Proof.
  intros st once twice.
  assert (Hw : steady healthy) by (by intros n n' p).
  split; [exact Hw|].
  exact (proj1 (proj2 (C5_set_twice healthy LIGHT_ID_NOTIFICATIONS Notification
                         (Some attention_dev) green_steady st Hw eq_refl))).
Defined.

(** ** What the caller is told *)

Lemma write_int_returns (w : world) p v st :
  (write_int w p v st).1 = errno_code (w (length (attempts st)) p).
Proof.
  unfold write_int, bind, sys_open_write; cbn [fst snd].
  destruct (w (length (attempts st)) p) as [|e|e]; cbn; [done| |done].
  by destruct (already_warned st =? 0).
Qed.

(** C7: a call on the attention, the notification or the battery light
    returns 0 whatever the kernel answers to the writes, with or without a
    device. *)
Theorem C7_color_calls_return_0 (w : world) (dev : option light_device_t)
    (s : light_state_t) (st : hal) :
  (call (set_light_attention w dev s) st).1 = 0 /\
  (call (set_light_notifications w dev s) st).1 = 0 /\
  (call (set_light_battery w dev s) st).1 = 0.
Proof.
  pose proof (call_color w LIGHT_ID_ATTENTION Attention dev s st eq_refl) as Ha.
  pose proof (call_color w LIGHT_ID_NOTIFICATIONS Notification dev s st
                eq_refl) as Hn.
  pose proof (call_color w LIGHT_ID_BATTERY Battery dev s st eq_refl) as Hb.
  cbn [set_light] in Ha, Hn, Hb. by rewrite Ha, Hn, Hb.
Qed.

(** C10: [set_light_backlight] and [set_light_buttons] return what
    [write_int] returns: 0 exactly when the kernel takes the write, and
    the negated [errno], a negative number, when the open or the write
    fails. *)
Theorem C10_backlight_buttons_propagate (w : world)
    (dev : option light_device_t) (s : light_state_t) (st : hal) :
  let lcd := w (length (attempts st)) LCD_FILE in
  let buttons := w (length (attempts st)) BUTTONS_FILE in
  let r1 := (call (set_light_backlight w dev s) st).1 in
  let r2 := (call (set_light_buttons w dev s) st).1 in
  (r1 = errno_code lcd /\ (r1 = 0 <-> lcd = IoOk) /\ (lcd <> IoOk -> r1 < 0)) /\
  (r2 = errno_code buttons /\ (r2 = 0 <-> buttons = IoOk) /\
   (buttons <> IoOk -> r2 < 0)).
Proof.
  intros lcd buttons r1 r2. subst r1 r2.
  rewrite call_backlight, call_buttons, !write_int_returns.
  fold lcd buttons.
  split; (split; [reflexivity|]).
  - destruct lcd; cbn; (split; [split|]); intros H;
      first [reflexivity | lia | discriminate H | congruence].
  - destruct buttons; cbn; (split; [split|]); intros H;
      first [reflexivity | lia | discriminate H | congruence].
Qed.

(** The instance of C10 on a kernel without the backlight node. *)
Lemma C10_backlight_buttons_propagate_witness :
  unplugged 0%nat LCD_FILE <> IoOk /\
  (call (set_light_backlight unplugged (Some attention_dev) red_flash)
        (boot ∅)).1 < 0.
Proof.
  assert (H : unplugged 0%nat LCD_FILE <> IoOk) by discriminate.
  split; [exact H|].
  exact (proj2 (proj2 (proj1 (C10_backlight_buttons_propagate unplugged
           (Some attention_dev) red_flash (boot ∅)))) H).
Defined.

(** ** A call without a device *)

(** C9: with a [NULL] device [set_speaker_light_locked] returns -1 and
    leaves everything as it was, so a colour call makes neither the writes
    of the clear nor those of an attention or notification render; when
    neither of the two is lit the three steady writes of the battery state
    are made all the same.  In every case the slot is updated and the call
    returns 0. *)
Theorem C9_null_device (w : world) (id : light_id) (sl : slot)
    (s : light_state_t) (st : hal) :
  slot_of id = Some sl ->
  (forall state st0, set_speaker_light_locked w None state st0 = (-1, st0)) /\
  let r := call (set_light w id None s) st in
  let st' := r.2 in
  let ws := if isLit (g_attention st') || isLit (g_notification st') then []
            else [(RED_LED_FILE, red_of (color (g_battery st')));
                  (GREEN_LED_FILE, green_of (color (g_battery st')));
                  (BLUE_LED_FILE, blue_of (color (g_battery st')))] in
  r.1 = 0 /\
  slot_state sl st' = s /\
  (forall sl', sl' <> sl -> slot_state sl' st' = slot_state sl' st) /\
  attempts st' = attempts st ++ ws /\
  sysfs st' = replay w (length (attempts st)) ws (sysfs st).
Proof.
  intros Hid. split; [reflexivity|]. intros r st' ws.
  destruct (color_call_effect w id sl None s st Hid) as (Hs & Ho & Hat & Hfs).
  fold r st' in Hs, Ho, Hat, Hfs.
  assert (Hws : handle_writes None st' = ws).
  { unfold handle_writes, winner, ws, solid_writes.
    by destruct (isLit (g_attention st')), (isLit (g_notification st')). }
  rewrite Hws in Hat, Hfs.
  split; [|done]. subst r. by rewrite (call_color w id sl None s st Hid).
Qed.

(** The instance of C9 on a battery call without a device. *)
Lemma C9_null_device_witness :
  slot_of LIGHT_ID_BATTERY = Some Battery /\
  (call (set_light healthy LIGHT_ID_BATTERY None battery_112233) (boot ∅)).1
  = 0.
Proof.
  split; [reflexivity|].
  exact (proj1 (proj2 (C9_null_device healthy LIGHT_ID_BATTERY Battery
                         battery_112233 (boot ∅) eq_refl))).
Defined.

(** ** The error log *)

Lemma write_int_log (w : world) p v st :
  let st' := (write_int w p v st).2 in
  attempts st' = attempts st ++ [(p, v)] /\
  match w (length (attempts st)) p with
  | OpenFail _ =>
      if already_warned st =? 0
      then logcat st' = logcat st ++ [ALOGE_open p] /\ already_warned st' = 1
      else logcat st' = logcat st /\ already_warned st' = already_warned st
  | _ => logcat st' = logcat st /\ already_warned st' = already_warned st
  end.
Proof.
  unfold write_int, bind, sys_open_write; cbn [fst snd].
  destruct (w (length (attempts st)) p) as [|e|e]; cbn; [done| |done].
  by destruct (already_warned st =? 0).
Qed.

Lemma write_all_silent (w : world) ws st :
  already_warned st <> 0 ->
  logcat (write_all w ws st).2 = logcat st.
Proof.
  revert st. induction ws as [|[p v] ws IH]; intros st Hst; [done|].
  cbn [write_all]. unfold bind.
  destruct (write_int_log w p v st) as (_ & Hlog).
  destruct (write_int w p v st) as [r st1]. cbn [snd] in Hlog.
  apply Z.eqb_neq in Hst as Hst'.
  assert (logcat st1 = logcat st /\ already_warned st1 = already_warned st)
    as [Hl Hw].
  { destruct (w (length (attempts st)) p); [done| |done].
    by rewrite Hst' in Hlog. }
  rewrite IH, Hl; [done|]. by rewrite Hw.
Qed.

Lemma errors_app l1 l2 : errors (l1 ++ l2) = errors l1 ++ errors l2.
Proof. unfold errors. apply omap_app. Qed.

(** C8, as the code has it: one flag serves all the nodes.  Of a sequence
    of calls of [write_int] only the first failed [open] is logged, with
    its path, and only if no failed [open] was logged before; every other
    failure, on the same node or on another one, and every failure of the
    [write] itself, is silent.  So a process logs at most one error line
    in all, hence at most one for each node. *)
Theorem C8_one_error_line (w : world) (ws : list (string * Z)) (st : hal) :
  let st' := (write_all w ws st).2 in
  logcat st'
  = logcat st ++
    (if already_warned st =? 0
     then match first_open_failure w (length (attempts st)) ws with
          | Some p => [ALOGE_open p]
          | None => []
          end
     else []) /\
  (length (errors (logcat st')) <= length (errors (logcat st)) + 1)%nat /\
  (forall fs,
     errors (logcat (write_all w ws (boot fs)).2)
     = match first_open_failure w 0 ws with Some p => [p] | None => [] end).
Proof.
  assert (Hgen : forall st0,
    logcat (write_all w ws st0).2
    = logcat st0 ++
      (if already_warned st0 =? 0
       then match first_open_failure w (length (attempts st0)) ws with
            | Some p => [ALOGE_open p]
            | None => []
            end
       else [])).
  { induction ws as [|[p v] ws IH]; intros st0.
    - cbn. destruct (already_warned st0 =? 0); by rewrite app_nil_r.
    - cbn [write_all first_open_failure]. unfold bind.
      destruct (write_int_log w p v st0) as (Hat & Hlog).
      destruct (write_int w p v st0) as [r st1]. cbn [snd] in Hat, Hlog.
      destruct (Z.eqb_spec (already_warned st0) 0) as [Hz|Hnz].
      + destruct (w (length (attempts st0)) p) as [|e|e].
        * destruct Hlog as [Hl Hw]. rewrite IH, Hl, Hw, Hat, length_app.
          apply Z.eqb_eq in Hz as ->. cbn [length].
          by rewrite Nat.add_1_r.
        * destruct Hlog as [Hl Hw]. rewrite write_all_silent, Hl; [done|].
          by rewrite Hw.
        * destruct Hlog as [Hl Hw]. rewrite IH, Hl, Hw, Hat, length_app.
          apply Z.eqb_eq in Hz as ->. cbn [length].
          by rewrite Nat.add_1_r.
      + assert (logcat st1 = logcat st0 /\
                already_warned st1 = already_warned st0) as [Hl Hw]
          by (by destruct (w (length (attempts st0)) p)).
        rewrite write_all_silent, Hl, app_nil_r; [done|]. by rewrite Hw. }
  intros st'. subst st'. split; [apply Hgen|]. split.
  - rewrite Hgen, errors_app, length_app.
    destruct (already_warned st =? 0); [|cbn; lia].
    destruct (first_open_failure w (length (attempts st)) ws); cbn; lia.
  - intros fs. rewrite Hgen. cbn.
    by destruct (first_open_failure w 0 ws).
Qed.

(** C8 fails as stated: the opens of the red and of the green node both
    fail, the red one first; the log has the line of the red node and none
    for the green node. *)
Lemma C8_counterexample :
  let st' := (write_all no_red_green
                [(RED_LED_FILE, 0); (GREEN_LED_FILE, 0)] (boot ∅)).2 in
  no_red_green 0%nat RED_LED_FILE = OpenFail ENOENT /\
  no_red_green 1%nat GREEN_LED_FILE = OpenFail ENOENT /\
  errors (logcat st') = [RED_LED_FILE] /\
  ~ In GREEN_LED_FILE (errors (logcat st')).
Proof.
  assert (H : errors (logcat (write_all no_red_green
                [(RED_LED_FILE, 0); (GREEN_LED_FILE, 0)] (boot ∅)).2)
              = [RED_LED_FILE]) by (vm_compute; reflexivity).
  cbv zeta. rewrite H.
  split; [vm_compute; reflexivity|]. split; [vm_compute; reflexivity|].
  split; [reflexivity|]. intros [Hin|[]]. discriminate Hin.
Qed.

(** ** One lock for the five lights *)

Lemma locks_taken_set_light (w : world) id dev s st :
  locks_taken (set_light w id dev s) st = [g_lock].
Proof.
  destruct id; cbn [set_light];
    unfold set_light_backlight, set_light_buttons, set_light_notifications,
      set_light_attention, set_light_battery; cbn [locks_taken];
    repeat match goal with
    | |- context [let (_, _) := ?x in _] => destruct x
    end; reflexivity.
Qed.

Lemma guarded_set_light (w : world) id dev s :
  guarded false (set_light w id dev s).
Proof. destruct id; cbn; tauto. Qed.

Lemma set_owner_same o f : set_owner g_lock o f g_lock = o.
Proof. unfold set_owner. by rewrite decide_True. Qed.

Lemma lock_invariant_start st calls :
  Forall (guarded false) calls -> lock_invariant (start st calls).
Proof.
  intros Hcalls i t Hi. cbn in *.
  rewrite bool_decide_eq_false_2 by discriminate.
  eapply Forall_lookup_1; eauto.
Qed.

Lemma lock_invariant_step j c c' :
  lock_invariant c -> step_thread j c = Some c' -> lock_invariant c'.
Proof.
  intros Hinv Hstep. unfold step_thread in Hstep.
  destruct (pool c !! j) as [tj|] eqn:Hj; [|discriminate].
  pose proof (Hinv j tj Hj) as Gj.
  pose proof (lookup_lt_Some _ _ _ Hj) as Hlen.
  assert (Hother : forall (k : thread Z) i t,
    i <> j -> <[j := k]> (pool c) !! i = Some t -> pool c !! i = Some t).
  { intros k i t Hne Hi. by rewrite list_lookup_insert_ne in Hi. }
  destruct tj as [a|m k|m k|B cmd k]; cbn [guarded] in Gj.
  - discriminate.
  - destruct m. destruct Gj as [_ Gk].
    destruct (owner c g_lock) as [o|] eqn:Ho; [discriminate|].
    injection Hstep as <-. intros i t Hi. cbn [owner pool] in *.
    rewrite set_owner_same. destruct (decide (i = j)) as [->|Hne].
    + rewrite list_lookup_insert_eq in Hi by done. injection Hi as <-.
      by rewrite bool_decide_eq_true_2.
    + pose proof (Hinv i t (Hother _ _ _ Hne Hi)) as Gi.
      rewrite Ho in Gi. rewrite bool_decide_eq_false_2 in Gi by discriminate.
      rewrite bool_decide_eq_false_2; [done|]. congruence.
  - destruct m. destruct Gj as [Hheld Gk].
    destruct (owner c g_lock) as [o|] eqn:Ho; [|discriminate].
    destruct (decide (o = j)) as [->|]; [|discriminate].
    injection Hstep as <-. intros i t Hi. cbn [owner pool] in *.
    rewrite set_owner_same. rewrite bool_decide_eq_false_2 by discriminate.
    destruct (decide (i = j)) as [->|Hne].
    + rewrite list_lookup_insert_eq in Hi by done. by injection Hi as <-.
    + pose proof (Hinv i t (Hother _ _ _ Hne Hi)) as Gi.
      rewrite Ho in Gi. rewrite bool_decide_eq_false_2 in Gi; [done|].
      congruence.
  - destruct Gj as [Hheld Gk]. destruct (cmd (shared c)) as [b st1].
    injection Hstep as <-. intros i t Hi. cbn [owner pool] in *.
    destruct (decide (i = j)) as [->|Hne].
    + rewrite list_lookup_insert_eq in Hi by done. injection Hi as <-.
      rewrite Hheld. apply Gk.
    + by apply Hinv, (Hother _ _ _ Hne Hi).
Qed.

Lemma lock_invariant_schedule sched c c' :
  lock_invariant c -> schedule sched c = Some c' -> lock_invariant c'.
Proof.
  revert c. induction sched as [|j sched IH]; intros c Hinv Hrun.
  - by injection Hrun as <-.
  - cbn [schedule] in Hrun.
    destruct (step_thread j c) as [c1|] eqn:Hstep; [|discriminate].
    eapply IH; [|exact Hrun]. by eapply lock_invariant_step.
Qed.

Lemma at_run_owner c i :
  lock_invariant c -> at_run i c = true -> owner c g_lock = Some i.
Proof.
  intros Hinv Hrun. unfold at_run in Hrun.
  destruct (pool c !! i) as [t|] eqn:Hi; [|discriminate].
  destruct t; try discriminate. destruct (Hinv _ _ Hi) as [Hheld _].
  by apply bool_decide_eq_true_1 in Hheld.
Qed.

(** C6, as the code has it: the five lights share the one mutex [g_lock].
    Every call takes [g_lock] and no other lock; whatever the calls in
    flight and however they are scheduled, a thread that is about to run
    code on the shared state, the write of the backlight or the buttons as
    much as an arbitration run, owns [g_lock], so two threads never are at
    such a point together; and a call that arrives while [g_lock] is held
    waits. *)
Theorem C6_one_lock_for_all (w : world) (st : hal) (calls : list (thread Z))
    (sched : list nat) (c : config) :
  Forall (fun t => exists id dev s, t = set_light w id dev s) calls ->
  schedule sched (start st calls) = Some c ->
  (forall id dev s st0, locks_taken (set_light w id dev s) st0 = [g_lock]) /\
  (forall i, at_run i c = true -> owner c g_lock = Some i) /\
  (forall i j, at_run i c = true -> at_run j c = true -> i = j) /\
  (forall j id dev s,
     pool c !! j = Some (set_light w id dev s) ->
     is_Some (owner c g_lock) ->
     blocked j c = true /\ step_thread j c = None).
Proof.
  intros Hcalls Hrun.
  assert (Hinv : lock_invariant c).
  { eapply lock_invariant_schedule; [|exact Hrun].
    apply lock_invariant_start. eapply Forall_impl; [exact Hcalls|].
    intros t (id & dev & s & ->). apply guarded_set_light. }
  split; [apply locks_taken_set_light|].
  split; [intros i; by apply at_run_owner|]. split.
  - intros i j Hi Hj.
    pose proof (at_run_owner c i Hinv Hi) as Hoi.
    pose proof (at_run_owner c j Hinv Hj) as Hoj. congruence.
  - intros j id dev s Hj [o Ho]. unfold blocked, step_thread. rewrite Hj.
    destruct id; cbn [set_light];
      unfold set_light_backlight, set_light_buttons, set_light_notifications,
        set_light_attention, set_light_battery; rewrite Ho;
      (split; [by apply bool_decide_eq_true_2|reflexivity]).
Qed.

(** The instance of C6 on an attention call that has taken the lock and
    stored its state, with a backlight call in flight. *)
Lemma C6_one_lock_for_all_witness :
  let calls := [set_light healthy LIGHT_ID_ATTENTION (Some attention_dev)
                          red_flash;
                set_light healthy LIGHT_ID_BACKLIGHT (Some attention_dev)
                          red_flash] in
  Forall (fun t => exists id dev s, t = set_light healthy id dev s) calls /\
  exists c, schedule [0%nat; 0%nat] (start (boot ∅) calls) = Some c /\
            owner c g_lock = Some 0%nat.
Proof.
  intros calls.
  assert (Hcalls : Forall (fun t => exists id dev s,
                             t = set_light healthy id dev s) calls).
  { repeat constructor; eexists _, _, _; reflexivity. }
  split; [exact Hcalls|]. eexists. split; [reflexivity|].
  refine (proj1 (proj2 (C6_one_lock_for_all healthy (boot ∅) calls
                          [0%nat; 0%nat] _ Hcalls eq_refl)) 0%nat eq_refl).
Defined.

(** C6 fails as stated: the attention call takes the lock, and the
    backlight call, which asks for the same lock, cannot move. *)
Lemma C6_counterexample :
  let attention := set_light healthy LIGHT_ID_ATTENTION (Some attention_dev)
                             red_flash in
  let backlight := set_light healthy LIGHT_ID_BACKLIGHT (Some attention_dev)
                             red_flash in
  locks_taken backlight (boot ∅) = locks_taken attention (boot ∅) /\
  exists c, schedule [0%nat] (start (boot ∅) [attention; backlight]) = Some c /\
            owner c g_lock = Some 0%nat /\
            blocked 1 c = true /\
            step_thread 1 c = None.
Proof.
  cbv zeta. split; [by rewrite !locks_taken_set_light|].
  eexists. split; [reflexivity|]. by cbn.
Qed.

(** * Further properties of the code *)

(** ** [is_lit] and [rgb_to_brightness] *)

(** [is_lit] is a number below 2^24; it is 0 exactly when the three
    components of the colour are 0, and the bits above the low 24 (the
    alpha byte) play no part: adding any multiple of 2^24 to the colour
    leaves it as it is. *)
Theorem is_lit_ignores_alpha (s : light_state_t) :
  0 <= is_lit s < 2 ^ 24 /\
  (is_lit s = 0 <->
   red_of (color s) = 0 /\ green_of (color s) = 0 /\ blue_of (color s) = 0) /\
  forall alpha mode on off bmode,
    is_lit (LightState (color s + alpha * 2 ^ 24) mode on off bmode)
    = is_lit s.
Proof.
  rewrite is_lit_low24. split; [apply low24_range|]. split.
  - rewrite <- isLit_components. unfold isLit.
    rewrite negb_false_iff, Z.eqb_eq. tauto.
  - intros. rewrite is_lit_low24. cbn [color]. unfold low24.
    apply Z.mod_add. lia.
Qed.

Lemma gray_components c v :
  0 <= v <= 255 -> low24 c = 65536 * v + 256 * v + v ->
  red_of c = v /\ green_of c = v /\ blue_of c = v.
Proof.
  intros Hv Hc. unfold red_of, green_of, blue_of. rewrite Hc.
  change (2 ^ 16) with 65536. change (2 ^ 8) with 256.
  repeat split; Z.div_mod_to_equations; lia.
Qed.

(** The three weights add up to 256: for a gray colour, the three
    components equal to [v], the brightness is [v] itself, whatever the
    alpha byte. *)
Theorem rgb_to_brightness_gray (s : light_state_t) (v : Z) :
  0 <= v <= 255 ->
  low24 (color s) = 65536 * v + 256 * v + v ->
  rgb_to_brightness s = v.
Proof.
  intros Hv Hc. destruct (gray_components _ _ Hv Hc) as (Hr & Hg & Hb).
  rewrite rgb_to_brightness_eq, Hr, Hg, Hb, Z.shiftr_div_pow2 by lia.
  change (2 ^ 8) with 256. Z.div_mod_to_equations. lia.
Qed.

Lemma rgb_to_brightness_gray_witness :
  0 <= 128 <= 255 /\
  low24 0xFF808080 = 65536 * 128 + 256 * 128 + 128 /\
  rgb_to_brightness (LightState 0xFF808080 0 0 0 0) = 128.
Proof.
  assert (Hv : 0 <= 128 <= 255) by lia.
  assert (Hc : low24 (color (LightState 0xFF808080 0 0 0 0))
               = 65536 * 128 + 256 * 128 + 128) by reflexivity.
  split; [exact Hv|]. split; [exact Hc|].
  exact (rgb_to_brightness_gray (LightState 0xFF808080 0 0 0 0) 128 Hv Hc).
Defined.

(** The brightness does not go down when no component goes down. *)
Theorem rgb_to_brightness_monotone (s1 s2 : light_state_t) :
  red_of (color s1) <= red_of (color s2) ->
  green_of (color s1) <= green_of (color s2) ->
  blue_of (color s1) <= blue_of (color s2) ->
  rgb_to_brightness s1 <= rgb_to_brightness s2.
Proof.
  intros Hr Hg Hb. rewrite !rgb_to_brightness_eq, !Z.shiftr_div_pow2 by lia.
  apply Z.div_le_mono; lia.
Qed.

Lemma rgb_to_brightness_monotone_witness :
  rgb_to_brightness (LightState 0x102030 0 0 0 0)
  <= rgb_to_brightness (LightState 0x112233 0 0 0 0).
Proof.
  apply rgb_to_brightness_monotone; vm_compute; discriminate.
Defined.

(** ** [open_lights] *)

Lemma open_lights_cases (names : light_id -> string) (name : string)
    (st : hal) :
  (open_lights names name st).2 = st /\
  match (open_lights names name st).1 with
  | (r, Some d) => r = 0 /\ names (dev_light d) = name
  | (r, None) => r = -22 /\ forall id, names id <> name
  end.
Proof.
  unfold open_lights.
  repeat case_bool_decide; cbn; (split; [reflexivity|]);
    try (split; [reflexivity|assumption]).
  split; [reflexivity|]. by intros [].
Qed.

(** [open_lights] never touches the state.  It returns 0 and a device
    bound to a light that has the name asked for, or [-EINVAL] (-22) and
    no device, and the latter exactly when none of the five lights has the
    name. *)
Theorem open_lights_result (names : light_id -> string) (name : string)
    (st : hal) :
  (open_lights names name st).2 = st /\
  match (open_lights names name st).1 with
  | (r, Some d) => r = 0 /\ names (dev_light d) = name
  | (r, None) => r = -22 /\ forall id, names id <> name
  end.
Proof. apply open_lights_cases. Qed.

(** When the five names differ, as those of Android do, the device
    [open_lights] makes for the name of a light is bound to this light. *)
Theorem open_lights_by_name (names : light_id -> string) (id : light_id)
    (st : hal) :
  (forall id1 id2, names id1 = names id2 -> id1 = id2) ->
  open_lights names (names id) st = ((0, Some (LightDevice id)), st).
Proof.
  intros Hinj.
  destruct (open_lights_cases names (names id) st) as [Hst Hres].
  destruct (open_lights names (names id) st) as [[r [d|]] st1];
    cbn [fst snd] in *; subst st1.
  - destruct Hres as [-> Hd]. apply Hinj in Hd. destruct d as [l].
    cbn in Hd. by subst l.
  - destruct Hres as [_ Hno]. by destruct (Hno id).
Qed.

Lemma open_lights_by_name_witness :
  (forall id1 id2, android_names id1 = android_names id2 -> id1 = id2) /\
  open_lights android_names "battery" (boot ∅)
  = ((0, Some (LightDevice LIGHT_ID_BATTERY)), boot ∅).
Proof.
  assert (Hinj : forall id1 id2,
            android_names id1 = android_names id2 -> id1 = id2)
    by (intros [] []; cbn; intros H; first [reflexivity|discriminate H]).
  split; [exact Hinj|].
  exact (open_lights_by_name android_names LIGHT_ID_BATTERY (boot ∅) Hinj).
Defined.

(** ** [write_int] *)

(** [write_int] returns 0 or a negative number.  When it returns 0 the
    node holds the value; when it does not, no node has changed.  In
    both cases every other node, and the store, are as before, and the
    call is the one more entry of the history. *)
Theorem write_int_contract (w : world) (p : string) (v : Z) (st : hal) :
  let r := (write_int w p v st).1 in
  let st' := (write_int w p v st).2 in
  r <= 0 /\
  (r = 0 -> sysfs st' !! p = Some v) /\
  (r <> 0 -> sysfs st' = sysfs st) /\
  (forall k, k <> p -> sysfs st' !! k = sysfs st !! k) /\
  attempts st' = attempts st ++ [(p, v)] /\
  (forall sl, slot_state sl st' = slot_state sl st).
Proof.
  intros r st'. subst r st'. rewrite write_int_returns.
  destruct (issues_write_int w p v st) as (Hat & Hfs & Ha & Hn & Hb).
  rewrite Hfs, Hat. cbn [replay].
  destruct (w (length (attempts st)) p) as [|e|e]; cbn [accepts errno_code];
    (split; [lia|]); (split; [intros H; try lia; apply lookup_insert_eq|]);
    (split; [intros H; try reflexivity; by destruct H|]);
    (split; [intros k Hk; try reflexivity; by apply lookup_insert_ne|]);
    (split; [reflexivity|by intros []]).
Qed.

Lemma write_int_contract_witness :
  (write_int healthy LCD_FILE 200 (boot ∅)).1 = 0 /\
  sysfs (write_int healthy LCD_FILE 200 (boot ∅)).2 !! LCD_FILE = Some 200.
Proof.
  assert (H : (write_int healthy LCD_FILE 200 (boot ∅)).1 = 0) by reflexivity.
  split; [exact H|].
  exact (proj1 (proj2 (write_int_contract healthy LCD_FILE 200 (boot ∅))) H).
Defined.

(** ** The nodes a call writes *)

Section Nodes.

Variable w : world.

Lemma landed_In n ws k v :
  landed w n ws k = Some v -> In (k, v) ws.
Proof.
  revert n. induction ws as [|[p v'] ws IH]; intros n; cbn [landed];
    [discriminate|].
  destruct (landed w (S n) ws k) as [v''|] eqn:Hl.
  - intros [= ->]. right. by eapply IH.
  - destruct (accepts (w n p)); cbn [andb]; [|discriminate].
    case_bool_decide; [|discriminate]. intros [= ->]. left. by subst.
Qed.

Lemma landed_refused n ws k :
  (forall m, accepts (w m k) = false) -> landed w n ws k = None.
Proof.
  intros Hk. revert n. induction ws as [|[p v] ws IH]; intros n;
    cbn [landed]; [done|].
  rewrite IH. case_bool_decide as Hp; [|by rewrite andb_false_r].
  subst p. by rewrite Hk.
Qed.

Lemma landed_node n ws k :
  (forall m, w m k = IoOk) -> landed w n ws k = landed healthy 0 ws k.
Proof.
  intros Hk. generalize 0%nat. revert n.
  induction ws as [|[p v] ws IH]; intros n n'; cbn [landed]; [done|].
  rewrite (IH (S n) (S n')). case_bool_decide as Hp.
  - subst p. by rewrite Hk.
  - by rewrite !andb_false_r.
Qed.

Lemma landed_written n ws k v :
  In (k, v) ws -> (forall m, accepts (w m k) = true) ->
  is_Some (landed w n ws k).
Proof.
  intros Hin Hk. revert n. induction ws as [|[p v'] ws IH]; intros n;
    [destruct Hin|]. cbn [landed].
  destruct (landed w (S n) ws k) eqn:Hl; [by eexists|].
  destruct Hin as [[= -> ->]|Hin].
  - rewrite Hk, bool_decide_eq_true_2 by done. by eexists.
  - destruct (IH Hin (S n)) as [x Hx]. congruence.
Qed.

Lemma landed_app_Some n ws1 ws2 k :
  is_Some (landed w n ws1 k) -> is_Some (landed w n (ws1 ++ ws2) k).
Proof.
  revert n. induction ws1 as [|[p v] ws1 IH]; intros n; cbn [landed app].
  - by intros [x Hx].
  - destruct (landed w (S n) ws1 k) eqn:Hl.
    + intros _. destruct (IH (S n)) as [x ->]; by eexists.
    + intros Hhead. destruct (landed w (S n) (ws1 ++ ws2) k); [by eexists|].
      exact Hhead.
Qed.

Lemma grounded_handle dev st :
  Forall (fun pv => In pv.1 color_sinks) (handle_writes dev st).
Proof.
  unfold handle_writes. destruct dev.
  - apply Forall_app. split; [apply grounded_clear|apply grounded_render].
  - destruct (winner st); [constructor|constructor|].
    apply (grounded_render Battery (g_battery st)).
Qed.

Lemma rgb_to_brightness_range s : 0 <= rgb_to_brightness s <= 255.
Proof.
  rewrite rgb_to_brightness_eq, Z.shiftr_div_pow2 by lia.
  pose proof (red_of_range (color s)). pose proof (green_of_range (color s)).
  pose proof (blue_of_range (color s)). change (2 ^ 8) with 256.
  split; [apply Z.div_pos; lia|].
  apply Z.lt_succ_r, Z.div_lt_upper_bound; lia.
Qed.

(** A call on the backlight or the buttons leaves the store alone; a
    colour call puts the state in its slot and leaves the two others. *)
Lemma call_slots id dev s st sl :
  slot_state sl (call (set_light w id dev s) st).2
  = if bool_decide (slot_of id = Some sl) then s else slot_state sl st.
Proof.
  destruct (slot_of id) as [sl0|] eqn:Hid.
  - destruct (color_call_effect w id sl0 dev s st Hid) as (Hs & Ho & _).
    case_bool_decide as Heq.
    + injection Heq as <-. exact Hs.
    + apply Ho. congruence.
  - rewrite bool_decide_eq_false_2 by discriminate.
    assert (Hw : exists p v,
               call (set_light w id dev s) st = write_int w p v st).
    { destruct id; try discriminate Hid; eexists _, _;
        [apply call_backlight|apply call_buttons]. }
    destruct Hw as (p & v & ->).
    destruct (issues_write_int w p v st) as (_ & _ & Ha & Hn & Hb).
    by destruct sl.
Qed.

Lemma grounded_call id dev s st :
  Forall (fun pv => In pv.1 (light_sinks id)) (call_writes id dev s st).
Proof.
  destruct id; cbn [call_writes light_sinks];
    try apply grounded_handle; repeat constructor.
Qed.

(** The effect of any of the five calls. *)
Lemma call_effect id dev s st :
  let st' := (call (set_light w id dev s) st).2 in
  attempts st' = attempts st ++ call_writes id dev s st' /\
  sysfs st'
  = replay w (length (attempts st)) (call_writes id dev s st') (sysfs st).
Proof.
  destruct id; cbn [set_light call_writes].
  - rewrite call_backlight.
    by destruct (issues_write_int w LCD_FILE (rgb_to_brightness s) st)
      as (? & ? & _).
  - rewrite call_buttons.
    by destruct (issues_write_int w BUTTONS_FILE (rgb_to_brightness s) st)
      as (? & ? & _).
  - destruct (color_call_effect w LIGHT_ID_NOTIFICATIONS Notification dev s st
                eq_refl) as (_ & _ & Hat & Hfs). by cbn [set_light] in *.
  - destruct (color_call_effect w LIGHT_ID_ATTENTION Attention dev s st
                eq_refl) as (_ & _ & Hat & Hfs). by cbn [set_light] in *.
  - destruct (color_call_effect w LIGHT_ID_BATTERY Battery dev s st
                eq_refl) as (_ & _ & Hat & Hfs). by cbn [set_light] in *.
Qed.

End Nodes.

Lemma call_frame (w : world) id dev s st k :
  ~ In k (light_sinks id) \/ (forall n, accepts (w n k) = false) ->
  sysfs (call (set_light w id dev s) st).2 !! k = sysfs st !! k.
Proof.
  intros Hk. destruct (call_effect w id dev s st) as [_ ->].
  rewrite replay_lookup.
  destruct (landed w (length (attempts st)) _ k) as [v|] eqn:Hl; [|done].
  destruct Hk as [Hk|Hk].
  - destruct Hk. apply landed_In in Hl.
    pose proof (grounded_call id dev s (call (set_light w id dev s) st).2)
      as Hg.
    rewrite List.Forall_forall in Hg. exact (Hg _ Hl).
  - by rewrite (landed_refused w _ _ k Hk) in Hl.
Qed.

(** A call leaves alone every node that is not one of its light: all but
    the backlight node for the backlight, all but the buttons node for the
    buttons, all but the six nodes of the LED for the three colour lights.
    It also leaves alone a node that refuses the writes. *)
Theorem call_touches_own_nodes (w : world) (id : light_id)
    (dev : option light_device_t) (s : light_state_t) (st : hal)
    (k : string) :
  ~ In k (light_sinks id) \/ (forall n, accepts (w n k) = false) ->
  sysfs (call (set_light w id dev s) st).2 !! k = sysfs st !! k.
Proof. apply call_frame. Qed.

Lemma call_touches_own_nodes_witness :
  ~ In LCD_FILE (light_sinks LIGHT_ID_ATTENTION) /\
  sysfs (call (set_light healthy LIGHT_ID_ATTENTION (Some attention_dev)
                         red_flash)
              (boot (<[LCD_FILE := 77]> ∅))).2 !! LCD_FILE
  = Some 77.
Proof.
  assert (H : ~ In LCD_FILE (light_sinks LIGHT_ID_ATTENTION))
    by exact LCD_not_led.
  split; [exact H|].
  rewrite (call_touches_own_nodes healthy LIGHT_ID_ATTENTION
             (Some attention_dev) red_flash (boot (<[LCD_FILE := 77]> ∅))
             LCD_FILE (or_introl H)).
  apply lookup_insert_eq.
Defined.

Lemma solid_writes_range c p v :
  In (p, v) (solid_writes c) -> 0 <= v <= 255 /\ ~ In p blink_sinks.
Proof.
  pose proof (red_of_range c). pose proof (green_of_range c).
  pose proof (blue_of_range c). unfold solid_writes, blink_sinks.
  intros Hin. cbn [In] in Hin.
  destruct Hin as [[= <- <-]|[[= <- <-]|[[= <- <-]|[]]]];
    (split; [assumption|]); intros Hp; in_cases Hp.
Qed.

Lemma clear_writes_range p v : In (p, v) clear_writes -> v = 0.
Proof.
  unfold clear_writes. intros H. cbn [In] in H.
  repeat (destruct H as [[= _ <-]|H]; [reflexivity|]). destruct H.
Qed.

Lemma blink_writes_range c p v :
  In (p, v) (blink_writes c) -> v = 0 \/ v = 1.
Proof.
  unfold blink_writes.
  destruct (red_of c =? 0), (green_of c =? 0), (blue_of c =? 0);
    cbn [app In]; intros H;
    repeat (destruct H as [[= _ <-]|H]; [tauto|]); destruct H.
Qed.

Lemma handle_writes_range dev st p v :
  In (p, v) (handle_writes dev st) ->
  0 <= v <= 255 /\ (In p blink_sinks -> v = 0 \/ v = 1).
Proof.
  assert (Hsolid : forall c, In (p, v) (solid_writes c) ->
            0 <= v <= 255 /\ (In p blink_sinks -> v = 0 \/ v = 1)).
  { intros c H. destruct (solid_writes_range c p v H) as [Hv Hp].
    split; [exact Hv|]. intros Hb. by destruct Hp. }
  assert (Hrender : forall sl s, In (p, v) (render_writes sl s) ->
            0 <= v <= 255 /\ (In p blink_sinks -> v = 0 \/ v = 1)).
  { intros sl s. destruct sl; cbn [render_writes]; unfold speaker_writes;
      try destruct (flashOnMS s =? 1); try exact (Hsolid _);
      intros H; apply blink_writes_range in H; lia. }
  unfold handle_writes. destruct dev.
  - rewrite in_app_iff. intros [H|H]; [|by eapply Hrender].
    apply clear_writes_range in H. lia.
  - destruct (winner st); [intros []|intros []|exact (Hsolid _)].
Qed.

(** Whatever the state passed, every value a call writes lies in
    [0,255], a blink node is only ever written 0 or 1, and the writes are
    all on nodes of the light of the call. *)
Theorem call_writes_in_range (w : world) (id : light_id)
    (dev : option light_device_t) (s : light_state_t) (st : hal) :
  exists ws,
    attempts (call (set_light w id dev s) st).2 = attempts st ++ ws /\
    forall p v, In (p, v) ws ->
      In p (light_sinks id) /\ 0 <= v <= 255 /\
      (In p blink_sinks -> v = 0 \/ v = 1).
Proof.
  destruct (call_effect w id dev s st) as [Hat _].
  eexists. split; [exact Hat|]. intros p v Hin.
  pose proof (grounded_call id dev s (call (set_light w id dev s) st).2) as Hg.
  rewrite List.Forall_forall in Hg. split; [exact (Hg _ Hin)|].
  pose proof (rgb_to_brightness_range s) as Hrange.
  destruct id; cbn [call_writes] in Hin;
    try exact (handle_writes_range dev _ p v Hin);
    destruct Hin as [[= <- <-]|[]]; (split; [exact Hrange|]);
    intros Hp; unfold blink_sinks in Hp; in_cases Hp.
Qed.

Lemma call_writes_in_range_witness :
  exists ws,
    attempts (call (set_light healthy LIGHT_ID_BATTERY (Some attention_dev)
                              battery_112233) (boot ∅)).2 = [] ++ ws /\
    forall p v, In (p, v) ws -> 0 <= v <= 255.
Proof.
  destruct (call_writes_in_range healthy LIGHT_ID_BATTERY (Some attention_dev)
              battery_112233 (boot ∅)) as (ws & Hat & Hws).
  exists ws. split; [exact Hat|]. intros p v Hin.
  exact (proj1 (proj2 (Hws p v Hin))).
Defined.

(** A call on the backlight or the buttons makes one write; a colour call
    with a device makes the six writes of the clear and three to six more;
    without a device it makes none, or the three of the battery. *)
Theorem call_write_count (w : world) (id : light_id)
    (dev : option light_device_t) (s : light_state_t) (st : hal) :
  let n := (length (attempts (call (set_light w id dev s) st).2)
            - length (attempts st))%nat in
  match slot_of id, dev with
  | None, _ => n = 1%nat
  | Some _, Some _ => (9 <= n <= 12)%nat
  | Some _, None => n = 0%nat \/ n = 3%nat
  end.
Proof.
  destruct (call_effect w id dev s st) as [Hat _]. cbv zeta.
  rewrite Hat, length_app.
  set (st' := (call (set_light w id dev s) st).2).
  assert (Hrender : forall sl x,
            (3 <= length (render_writes sl x) <= 6)%nat).
  { intros sl x. destruct sl; cbn [render_writes]; unfold speaker_writes;
      try destruct (flashOnMS x =? 1); cbn [solid_writes length]; try lia;
      unfold blink_writes;
      destruct (red_of (color x) =? 0), (green_of (color x) =? 0),
        (blue_of (color x) =? 0); cbn [app length]; lia. }
  assert (Hhandle : match dev with
            | Some _ => (9 <= length (handle_writes dev st') <= 12)%nat
            | None => length (handle_writes dev st') = 0%nat \/
                      length (handle_writes dev st') = 3%nat
            end).
  { unfold handle_writes. destruct dev.
    - rewrite length_app. cbn [clear_writes length].
      pose proof (Hrender (winner st') (slot_state (winner st') st')). lia.
    - destruct (winner st'); cbn [solid_writes length]; lia. }
  destruct id; cbn [slot_of call_writes length]; try lia;
    destruct dev; lia.
Qed.

(** What a call tries to write does not depend on what the kernel
    answers: under two kernels the same call from the same state makes
    the same writes, in the same order, and leaves the same store. *)
Theorem call_writes_whatever_fails (w1 w2 : world) (id : light_id)
    (dev : option light_device_t) (s : light_state_t) (st : hal) :
  attempts (call (set_light w1 id dev s) st).2
  = attempts (call (set_light w2 id dev s) st).2 /\
  forall sl, slot_state sl (call (set_light w1 id dev s) st).2
             = slot_state sl (call (set_light w2 id dev s) st).2.
Proof.
  assert (Hslots : forall sl,
    slot_state sl (call (set_light w1 id dev s) st).2
    = slot_state sl (call (set_light w2 id dev s) st).2)
    by (intros sl; by rewrite !call_slots).
  split; [|exact Hslots].
  destruct (call_effect w1 id dev s st) as [-> _].
  destruct (call_effect w2 id dev s st) as [-> _].
  f_equal. destruct id; cbn [call_writes]; try reflexivity;
    apply handle_writes_ext;
    [apply (Hslots Attention)|apply (Hslots Notification)
    |apply (Hslots Battery)
    |apply (Hslots Attention)|apply (Hslots Notification)
    |apply (Hslots Battery)
    |apply (Hslots Attention)|apply (Hslots Notification)
    |apply (Hslots Battery)].
Qed.

(** ** The LED when some nodes fail *)

Lemma led_accepts_healthy : led_accepts healthy.
Proof. by intros n p _. Qed.

Lemma arbitrate_ext st st' :
  (forall sl, slot_state sl st' = slot_state sl st) ->
  arbitrate st' = arbitrate st.
Proof.
  intros H. destruct (winner_ext st st' (H Attention) (H Notification)
                        (H Battery)) as [Hw Hs].
  unfold arbitrate. by rewrite Hw, Hs.
Qed.

Lemma render_exclusive sl s ch :
  0 <= steady_value ch (render sl s) <= 255 /\
  (blink_value ch (render sl s) = 0 \/ blink_value ch (render sl s) = 1) /\
  (steady_value ch (render sl s) = 0 \/ blink_value ch (render sl s) = 0).
Proof.
  pose proof (red_of_range (color s)). pose proof (green_of_range (color s)).
  pose proof (blue_of_range (color s)).
  destruct sl, ch; cbn [render]; try destruct (flashOnMS s =? 1);
    unfold render_solid, render_blink; cbn;
    try destruct (red_of (color s) =? 0);
    try destruct (green_of (color s) =? 0);
    try destruct (blue_of (color s) =? 0); lia.
Qed.

(** After a colour call with a device, a node of the LED that takes its
    writes holds the value of the arbitration of the store, whatever the
    other nodes do. *)
Lemma node_after_colour_call (w : world) id sl d s st ch :
  slot_of id = Some sl ->
  let st' := (call (set_light w id (Some d) s) st).2 in
  ((forall n, w n (solid_sink ch) = IoOk) ->
   sysfs st' !! solid_sink ch = Some (steady_value ch (arbitrate st'))) /\
  ((forall n, w n (blink_sink ch) = IoOk) ->
   sysfs st' !! blink_sink ch = Some (blink_value ch (arbitrate st'))).
Proof.
  intros Hid st'.
  destruct (color_call_effect w id sl (Some d) s st Hid) as (_ & _ & _ & Hfs).
  fold st' in Hfs. unfold handle_writes in Hfs.
  pose proof (output_after_render healthy 0 (winner st')
                (slot_state (winner st') st') (sysfs st) led_accepts_healthy)
    as Hout.
  destruct (physical_output_lookup _ _ Hout ch) as [H1 H2].
  rewrite replay_lookup in H1, H2.
  split; intros Hk; rewrite Hfs, replay_lookup, (landed_node w _ _ _ Hk).
  - exact H1.
  - exact H2.
Qed.

(** A failing node does not harm the others: after a colour call with a
    device, each node of the LED that takes its writes holds the value
    the arbitration of the store gives it, even when every other node
    refuses the writes. *)
Theorem led_node_survives_failures (w : world) (id : light_id) (sl : slot)
    (d : light_device_t) (s : light_state_t) (st : hal) (ch : channel) :
  slot_of id = Some sl ->
  let st' := (call (set_light w id (Some d) s) st).2 in
  ((forall n, w n (solid_sink ch) = IoOk) ->
   sysfs st' !! solid_sink ch = Some (steady_value ch (arbitrate st'))) /\
  ((forall n, w n (blink_sink ch) = IoOk) ->
   sysfs st' !! blink_sink ch = Some (blink_value ch (arbitrate st'))).
Proof. apply node_after_colour_call. Qed.

(** The instance on a kernel without the red and the green steady nodes:
    the blink node of red is still enabled by a red flashing attention. *)
Lemma led_node_survives_failures_witness :
  slot_of LIGHT_ID_ATTENTION = Some Attention /\
  (forall n, no_red_green n (blink_sink Red) = IoOk) /\
  sysfs (call (set_light no_red_green LIGHT_ID_ATTENTION (Some attention_dev)
                         red_flash) (boot ∅)).2 !! RED_BLINK_FILE
  = Some 1.
Proof.
  assert (Hk : forall n, no_red_green n (blink_sink Red) = IoOk)
    by (intros n; reflexivity).
  split; [reflexivity|]. split; [exact Hk|].
  rewrite (proj2 (led_node_survives_failures no_red_green LIGHT_ID_ATTENTION
                    Attention attention_dev red_flash (boot ∅) Red eq_refl)
             Hk).
  vm_compute. reflexivity.
Defined.

(** After a colour call with a device, a colour whose two nodes take
    their writes is never both lit steadily and blinking: its steady
    node holds a value of [0,255], its blink node 0 or 1, and one of the
    two holds 0. *)
Theorem led_never_steady_and_blinking (w : world) (id : light_id) (sl : slot)
    (d : light_device_t) (s : light_state_t) (st : hal) (ch : channel) :
  slot_of id = Some sl ->
  (forall n, w n (solid_sink ch) = IoOk) ->
  (forall n, w n (blink_sink ch) = IoOk) ->
  let st' := (call (set_light w id (Some d) s) st).2 in
  exists a b,
    sysfs st' !! solid_sink ch = Some a /\
    sysfs st' !! blink_sink ch = Some b /\
    0 <= a <= 255 /\ (b = 0 \/ b = 1) /\ (a = 0 \/ b = 0).
Proof.
  intros Hid Hs Hb st'.
  destruct (node_after_colour_call w id sl d s st ch Hid) as [H1 H2].
  exists (steady_value ch (arbitrate st')), (blink_value ch (arbitrate st')).
  split; [exact (H1 Hs)|]. split; [exact (H2 Hb)|]. apply render_exclusive.
Qed.

Lemma led_never_steady_and_blinking_witness :
  slot_of LIGHT_ID_NOTIFICATIONS = Some Notification /\
  (forall n, healthy n (solid_sink Green) = IoOk) /\
  (forall n, healthy n (blink_sink Green) = IoOk) /\
  exists a b,
    sysfs (call (set_light healthy LIGHT_ID_NOTIFICATIONS (Some attention_dev)
                           green_steady) (boot ∅)).2 !! GREEN_LED_FILE
    = Some a /\
    sysfs (call (set_light healthy LIGHT_ID_NOTIFICATIONS (Some attention_dev)
                           green_steady) (boot ∅)).2 !! GREEN_BLINK_FILE
    = Some b /\ (a = 0 \/ b = 0).
Proof.
  assert (H1 : forall n, healthy n (solid_sink Green) = IoOk) by reflexivity.
  assert (H2 : forall n, healthy n (blink_sink Green) = IoOk) by reflexivity.
  split; [reflexivity|]. split; [exact H1|]. split; [exact H2|].
  destruct (led_never_steady_and_blinking healthy LIGHT_ID_NOTIFICATIONS
              Notification attention_dev green_steady (boot ∅) Green
              eq_refl H1 H2) as (a & b & Ha & Hb & _ & _ & Hab).
  exists a, b. by repeat split.
Defined.

(** ** The LED over a sequence of calls *)

Lemma consistent_step (w : world) id d s st :
  led_accepts w ->
  slot_of id <> None \/ consistent st ->
  consistent (call (set_light w id (Some d) s) st).2.
Proof.
  intros Hw Hor. unfold consistent.
  destruct (slot_of id) as [sl|] eqn:Hid.
  - destruct (color_call_effect w id sl (Some d) s st Hid)
      as (_ & _ & _ & Hfs).
    rewrite Hfs. unfold handle_writes, arbitrate.
    by apply output_after_render.
  - destruct Hor as [Hne|Hc]; [by destruct Hne|].
    rewrite (arbitrate_ext st).
    + rewrite <- Hc. apply physical_output_ext. intros p Hp.
      apply call_frame. left. destruct id; try discriminate Hid;
        cbn [light_sinks]; intros [<-|[]];
        [by apply LCD_not_led|by apply BUTTONS_not_led].
    + intros sl. rewrite call_slots, Hid.
      by rewrite bool_decide_eq_false_2.
Qed.

(** On an LED that takes its writes, calls made with a device keep the
    LED in line with the store: once the LED shows the arbitration of the
    store it does so after every further call, on whichever of the five
    lights; and the first colour call of a sequence brings this about. *)
Theorem led_follows_store (w : world) (cs : list hal_call) (st : hal) :
  led_accepts w ->
  Forall (fun c => call_dev c <> None) cs ->
  consistent st \/ Exists (fun c => slot_of (call_light c) <> None) cs ->
  consistent (run_calls w cs st).2.
Proof.
  intros Hw Hdev. revert st.
  induction Hdev as [|[id dev s] cs Hd _ IH]; intros st Hor.
  - destruct Hor as [Hc|Hex]; [exact Hc|by apply Exists_nil in Hex].
  - cbn [run_calls]. unfold bind, run_call. cbn [call_light call_dev call_state].
    destruct dev as [d|]; [|by destruct Hd].
    pose proof (consistent_step w id d s st Hw) as Hstep.
    destruct (call (set_light w id (Some d) s) st) as [r st1]. cbn [snd] in *.
    apply IH.
    destruct (slot_of id) eqn:Hid.
    + left. apply Hstep. left. discriminate.
    + destruct Hor as [Hc|Hex].
      * left. apply Hstep. by right.
      * apply Exists_cons in Hex as [Hex|Hex]; [|by right].
        cbn in Hex. by rewrite Hid in Hex.
Qed.

Lemma led_follows_store_witness :
  let cs := [HalCall LIGHT_ID_BACKLIGHT (Some attention_dev) red_flash;
             HalCall LIGHT_ID_BATTERY (Some attention_dev) battery_112233;
             HalCall LIGHT_ID_BUTTONS (Some attention_dev) green_steady] in
  led_accepts healthy /\
  Forall (fun c => call_dev c <> None) cs /\
  Exists (fun c => slot_of (call_light c) <> None) cs /\
  consistent (run_calls healthy cs (boot ∅)).2.
Proof.
  intros cs.
  assert (Hd : Forall (fun c => call_dev c <> None) cs)
    by (repeat constructor; discriminate).
  assert (Hex : Exists (fun c => slot_of (call_light c) <> None) cs)
    by (right; left; discriminate).
  split; [exact led_accepts_healthy|]. split; [exact Hd|].
  split; [exact Hex|].
  exact (led_follows_store healthy cs (boot ∅) led_accepts_healthy Hd
           (or_intror Hex)).
Defined.

(** ** Calling again, calling in another order *)

Section Steady.

Variable w : world.
Hypothesis Hsteady : steady w.

Lemma landed_accepted n ws k v :
  landed w n ws k = Some v -> exists m, accepts (w m k) = true.
Proof.
  revert n v. induction ws as [|[p v'] ws IH]; intros n v; cbn [landed];
    [discriminate|].
  destruct (landed w (S n) ws k) eqn:Hl'.
  - intros _. by eapply IH.
  - destruct (accepts (w n p)) eqn:Ha; cbn [andb]; [|discriminate].
    case_bool_decide; [|discriminate]. subst p. intros _. by exists n.
Qed.

(** The writes of an arbitration run with a device hide the earlier writes
    on the nodes of the LED. *)
Lemma replay_absorbs n1 n2 n3 ws1 rw fs :
  Forall (fun pv => In pv.1 color_sinks) ws1 ->
  replay w n2 (clear_writes ++ rw) (replay w n1 ws1 fs)
  = replay w n3 (clear_writes ++ rw) fs.
Proof.
  intros Hg. apply map_eq. intros k. rewrite !replay_lookup.
  rewrite (landed_steady w n2 n3 _ k Hsteady).
  destruct (landed w n3 (clear_writes ++ rw) k) as [v|] eqn:Hl; [done|].
  cbn [from_option].
  destruct (landed w n1 ws1 k) as [v1|] eqn:Hl1; [|done].
  exfalso.
  assert (Hacc : forall m, accepts (w m k) = true).
  { destruct (landed_accepted _ _ _ _ Hl1) as [m0 Hm0]. intros m.
    by rewrite (Hsteady m m0 k). }
  assert (Hin : In (k, 0) clear_writes).
  { apply landed_In in Hl1. rewrite List.Forall_forall in Hg.
    pose proof (Hg _ Hl1) as Hk. cbn [fst] in Hk. unfold color_sinks in Hk.
    unfold clear_writes. cbn [In] in *.
    repeat (destruct Hk as [<-|Hk]; [tauto|]). destruct Hk. }
  destruct (landed_app_Some w n3 clear_writes rw k
              (landed_written w n3 _ k 0 Hin Hacc)) as [x Hx].
  congruence.
Qed.

(** Writes on different nodes can be made in either order. *)
Lemma replay_swaps n1 n2 n3 n4 ws1 ws2 fs :
  (forall k v1 v2, In (k, v1) ws1 -> In (k, v2) ws2 -> False) ->
  replay w n2 ws2 (replay w n1 ws1 fs) = replay w n4 ws1 (replay w n3 ws2 fs).
Proof.
  intros Hdis. apply map_eq. intros k. rewrite !replay_lookup.
  rewrite (landed_steady w n2 n3 ws2 k Hsteady),
    (landed_steady w n4 n1 ws1 k Hsteady).
  destruct (landed w n3 ws2 k) as [v2|] eqn:H2,
    (landed w n1 ws1 k) as [v1|] eqn:H1; try done.
  apply landed_In in H1, H2. destruct (Hdis _ _ _ H1 H2).
Qed.

Lemma handle_writes_device d1 d2 st :
  handle_writes (Some d1) st = handle_writes (Some d2) st.
Proof. reflexivity. Qed.

Lemma handle_writes_slots dev st st' :
  (forall sl, slot_state sl st' = slot_state sl st) ->
  handle_writes dev st' = handle_writes dev st.
Proof.
  intros H. apply handle_writes_ext;
    [apply (H Attention)|apply (H Notification)|apply (H Battery)].
Qed.

Lemma overwrite_effect id sl dev1 s1 d s2 st :
  slot_of id = Some sl ->
  let a := (call (set_light w id dev1 s1) st).2 in
  let b := (call (set_light w id (Some d) s2) a).2 in
  let direct := (call (set_light w id (Some d) s2) st).2 in
  (forall sl', slot_state sl' b = slot_state sl' direct) /\
  sysfs b = sysfs direct.
Proof.
  intros Hid a b direct.
  assert (Hsl : forall sl', slot_state sl' b = slot_state sl' direct).
  { intros sl'. unfold b, direct, a. rewrite !call_slots.
    by case_bool_decide. }
  split; [exact Hsl|].
  destruct (color_call_effect w id sl dev1 s1 st Hid) as (_ & _ & _ & Ha).
  destruct (color_call_effect w id sl (Some d) s2 a Hid) as (_ & _ & _ & Hb).
  destruct (color_call_effect w id sl (Some d) s2 st Hid) as (_ & _ & _ & Hd).
  fold a in Ha, Hb. fold b in Hb. fold direct in Hd.
  rewrite Hb, Ha, Hd, (handle_writes_slots (Some d) direct b Hsl).
  unfold handle_writes at 1 3. apply replay_absorbs, grounded_handle.
Qed.

Lemma commute_effect id1 sl1 d1 s1 id2 sl2 d2 s2 st :
  slot_of id1 = Some sl1 -> slot_of id2 = Some sl2 -> sl1 <> sl2 ->
  let ab := (call (set_light w id2 (Some d2) s2)
                  (call (set_light w id1 (Some d1) s1) st).2).2 in
  let ba := (call (set_light w id1 (Some d1) s1)
                  (call (set_light w id2 (Some d2) s2) st).2).2 in
  (forall sl, slot_state sl ab = slot_state sl ba) /\
  sysfs ab = sysfs ba.
Proof.
  intros Hid1 Hid2 Hne ab ba.
  assert (Hsl : forall sl, slot_state sl ab = slot_state sl ba).
  { intros sl. unfold ab, ba. rewrite !call_slots, Hid1, Hid2.
    repeat case_bool_decide; congruence. }
  split; [exact Hsl|].
  set (a := (call (set_light w id1 (Some d1) s1) st).2) in *.
  set (b := (call (set_light w id2 (Some d2) s2) st).2) in *.
  destruct (color_call_effect w id1 sl1 (Some d1) s1 st Hid1)
    as (_ & _ & _ & Ha).
  destruct (color_call_effect w id2 sl2 (Some d2) s2 a Hid2)
    as (_ & _ & _ & Hab).
  destruct (color_call_effect w id2 sl2 (Some d2) s2 st Hid2)
    as (_ & _ & _ & Hb).
  destruct (color_call_effect w id1 sl1 (Some d1) s1 b Hid1)
    as (_ & _ & _ & Hba).
  fold a in Ha, Hab. fold b in Hb, Hba. fold ab in Hab. fold ba in Hba.
  rewrite Hab, Ha, Hba, Hb.
  rewrite (handle_writes_device d2 d1 ab),
    (handle_writes_slots (Some d1) ba ab Hsl).
  unfold handle_writes at 1 3.
  rewrite (replay_absorbs _ _ (length (attempts st)))
    by apply grounded_handle.
  symmetry. apply replay_absorbs, grounded_handle.
Qed.

Lemma call_writes_slots id dev s st st' :
  (forall sl, slot_state sl st' = slot_state sl st) ->
  call_writes id dev s st' = call_writes id dev s st.
Proof.
  intros H. destruct id; cbn [call_writes]; try reflexivity;
    by apply handle_writes_slots.
Qed.

Lemma apart_effect id1 dev1 s1 id2 dev2 s2 st :
  (forall k, In k (light_sinks id1) -> In k (light_sinks id2) -> False) ->
  let ab := (call (set_light w id2 dev2 s2)
                  (call (set_light w id1 dev1 s1) st).2).2 in
  let ba := (call (set_light w id1 dev1 s1)
                  (call (set_light w id2 dev2 s2) st).2).2 in
  (forall sl, slot_state sl ab = slot_state sl ba) /\
  sysfs ab = sysfs ba.
Proof.
  intros Hdis ab ba.
  assert (Hcol : forall sl sl', slot_of id1 = Some sl ->
                                slot_of id2 = Some sl' -> False).
  { intros sl sl' H1 H2. apply (Hdis RED_LED_FILE).
    - destruct id1; try discriminate H1; by left.
    - destruct id2; try discriminate H2; by left. }
  assert (Hsl : forall sl, slot_state sl ab = slot_state sl ba).
  { intros sl. unfold ab, ba. rewrite !call_slots.
    repeat case_bool_decide; try reflexivity. by destruct (Hcol sl sl). }
  split; [exact Hsl|].
  set (a := (call (set_light w id1 dev1 s1) st).2) in *.
  set (b := (call (set_light w id2 dev2 s2) st).2) in *.
  destruct (call_effect w id1 dev1 s1 st) as [_ Ha].
  destruct (call_effect w id2 dev2 s2 a) as [_ Hab].
  destruct (call_effect w id2 dev2 s2 st) as [_ Hb].
  destruct (call_effect w id1 dev1 s1 b) as [_ Hba].
  fold a in Ha, Hab. fold b in Hb, Hba. fold ab in Hab. fold ba in Hba.
  assert (H1 : call_writes id1 dev1 s1 ba = call_writes id1 dev1 s1 a).
  { destruct (slot_of id1) as [sl1|] eqn:Hid1.
    - apply call_writes_slots. intros sl. unfold ba, a.
      rewrite !call_slots. case_bool_decide; [done|].
      unfold b. rewrite call_slots. case_bool_decide; [|done].
      by destruct (Hcol sl1 sl).
    - by destruct id1. }
  assert (H2 : call_writes id2 dev2 s2 ab = call_writes id2 dev2 s2 b).
  { destruct (slot_of id2) as [sl2|] eqn:Hid2.
    - apply call_writes_slots. intros sl. unfold ab, b.
      rewrite !call_slots. case_bool_decide; [done|].
      unfold a. rewrite call_slots. case_bool_decide; [|done].
      by destruct (Hcol sl sl2).
    - by destruct id2. }
  rewrite Hab, Ha, Hba, Hb, H1, H2. apply replay_swaps.
  intros k v1 v2 Hk1 Hk2.
  pose proof (grounded_call id1 dev1 s1 a) as G1.
  pose proof (grounded_call id2 dev2 s2 b) as G2.
  rewrite List.Forall_forall in G1, G2.
  exact (Hdis k (G1 _ Hk1) (G2 _ Hk2)).
Qed.

End Steady.

(** On nodes that are steady, a colour call made with a device wipes out
    the call made on the same light before it: the store and all the
    sysfs nodes are those the second call alone would have given. *)
Theorem set_again_overwrites (w : world) (id : light_id) (sl : slot)
    (dev1 : option light_device_t) (s1 : light_state_t)
    (d : light_device_t) (s2 : light_state_t) (st : hal) :
  steady w -> slot_of id = Some sl ->
  let a := (call (set_light w id dev1 s1) st).2 in
  let b := (call (set_light w id (Some d) s2) a).2 in
  let direct := (call (set_light w id (Some d) s2) st).2 in
  (forall sl', slot_state sl' b = slot_state sl' direct) /\
  sysfs b = sysfs direct.
Proof. intros Hw. by apply overwrite_effect. Qed.

Lemma set_again_overwrites_witness :
  steady healthy /\ slot_of LIGHT_ID_ATTENTION = Some Attention /\
  sysfs (call (set_light healthy LIGHT_ID_ATTENTION (Some attention_dev)
                         light_off)
              (call (set_light healthy LIGHT_ID_ATTENTION (Some attention_dev)
                               red_flash) (boot ∅)).2).2
  = sysfs (call (set_light healthy LIGHT_ID_ATTENTION (Some attention_dev)
                           light_off) (boot ∅)).2.
Proof.
  assert (Hw : steady healthy) by (by intros n n' p).
  split; [exact Hw|]. split; [reflexivity|].
  exact (proj2 (set_again_overwrites healthy LIGHT_ID_ATTENTION Attention
                  (Some attention_dev) red_flash attention_dev light_off
                  (boot ∅) Hw eq_refl)).
Defined.

(** On nodes that are steady, two colour calls with a device on two
    different lights give the same store and the same sysfs nodes in
    either order. *)
Theorem colour_calls_commute (w : world) (id1 id2 : light_id)
    (sl1 sl2 : slot) (d1 d2 : light_device_t) (s1 s2 : light_state_t)
    (st : hal) :
  steady w ->
  slot_of id1 = Some sl1 -> slot_of id2 = Some sl2 -> sl1 <> sl2 ->
  let ab := (call (set_light w id2 (Some d2) s2)
                  (call (set_light w id1 (Some d1) s1) st).2).2 in
  let ba := (call (set_light w id1 (Some d1) s1)
                  (call (set_light w id2 (Some d2) s2) st).2).2 in
  (forall sl, slot_state sl ab = slot_state sl ba) /\
  sysfs ab = sysfs ba.
Proof. intros Hw. by apply commute_effect. Qed.

Lemma colour_calls_commute_witness :
  steady healthy /\ Attention <> Battery /\
  sysfs (call (set_light healthy LIGHT_ID_BATTERY (Some attention_dev)
                         battery_112233)
              (call (set_light healthy LIGHT_ID_ATTENTION (Some attention_dev)
                               red_flash) (boot ∅)).2).2
  = sysfs (call (set_light healthy LIGHT_ID_ATTENTION (Some attention_dev)
                           red_flash)
                (call (set_light healthy LIGHT_ID_BATTERY
                                 (Some attention_dev) battery_112233)
                      (boot ∅)).2).2.
Proof.
  assert (Hw : steady healthy) by (by intros n n' p).
  assert (Hne : Attention <> Battery) by discriminate.
  split; [exact Hw|]. split; [exact Hne|].
  exact (proj2 (colour_calls_commute healthy LIGHT_ID_ATTENTION
                  LIGHT_ID_BATTERY Attention Battery attention_dev
                  attention_dev red_flash battery_112233 (boot ∅) Hw
                  eq_refl eq_refl Hne)).
Defined.

(** On nodes that are steady, two calls on lights that share no node (the
    backlight and the buttons, or one of them and a colour light) give
    the same store and the same sysfs nodes in either order, with or
    without a device. *)
Theorem calls_on_other_nodes_commute (w : world) (id1 id2 : light_id)
    (dev1 dev2 : option light_device_t) (s1 s2 : light_state_t) (st : hal) :
  steady w ->
  (forall k, In k (light_sinks id1) -> In k (light_sinks id2) -> False) ->
  let ab := (call (set_light w id2 dev2 s2)
                  (call (set_light w id1 dev1 s1) st).2).2 in
  let ba := (call (set_light w id1 dev1 s1)
                  (call (set_light w id2 dev2 s2) st).2).2 in
  (forall sl, slot_state sl ab = slot_state sl ba) /\
  sysfs ab = sysfs ba.
Proof. intros Hw. by apply apart_effect. Qed.

Lemma calls_on_other_nodes_commute_witness :
  steady healthy /\
  (forall k, In k (light_sinks LIGHT_ID_BACKLIGHT) ->
             In k (light_sinks LIGHT_ID_NOTIFICATIONS) -> False) /\
  sysfs (call (set_light healthy LIGHT_ID_NOTIFICATIONS None green_steady)
              (call (set_light healthy LIGHT_ID_BACKLIGHT None red_flash)
                    (boot ∅)).2).2
  = sysfs (call (set_light healthy LIGHT_ID_BACKLIGHT None red_flash)
                (call (set_light healthy LIGHT_ID_NOTIFICATIONS None
                                 green_steady) (boot ∅)).2).2.
Proof.
  assert (Hw : steady healthy) by (by intros n n' p).
  assert (Hdis : forall k, In k (light_sinks LIGHT_ID_BACKLIGHT) ->
                   In k (light_sinks LIGHT_ID_NOTIFICATIONS) -> False)
    by (intros k [<-|[]]; apply LCD_not_led).
  split; [exact Hw|]. split; [exact Hdis|].
  exact (proj2 (calls_on_other_nodes_commute healthy LIGHT_ID_BACKLIGHT
                  LIGHT_ID_NOTIFICATIONS None None red_flash green_steady
                  (boot ∅) Hw Hdis)).
Defined.

(** ** The error log over a sequence of calls *)

Lemma log_step_refl st : log_step st st.
Proof. by left. Qed.

Lemma log_step_trans st1 st2 st3 :
  log_step st1 st2 -> log_step st2 st3 -> log_step st1 st3.
Proof.
  intros [[Hw1 He1]|(Hz1 & Ho1 & p1 & He1)] [[Hw2 He2]|(Hz2 & Ho2 & p2 & He2)].
  - left. split; congruence.
  - right. repeat split; try congruence. exists p2. congruence.
  - right. repeat split; try congruence. exists p1. congruence.
  - congruence.
Qed.

Lemma log_step_bind {A B} (m : M A) (k : A -> M B) st :
  log_step st (m st).2 ->
  (forall a st1, log_step st1 (k a st1).2) ->
  log_step st (bind m k st).2.
Proof.
  intros Hm Hk. unfold bind. destruct (m st) as [a st1]. cbn [snd] in *.
  eapply log_step_trans; [exact Hm|apply Hk].
Qed.

Lemma log_step_write_int (w : world) p v st :
  log_step st (write_int w p v st).2.
Proof.
  destruct (write_int_log w p v st) as [_ H].
  destruct (w (length (attempts st)) p) as [|e|e].
  - left. destruct H as [-> ->]. done.
  - destruct (Z.eqb_spec (already_warned st) 0) as [Hz|Hnz].
    + right. destruct H as [Hl Hw]. repeat split; [done|done|].
      exists p. by rewrite Hl, errors_app.
    + left. by destruct H as [-> ->].
  - left. by destruct H as [-> ->].
Qed.

Lemma log_step_battery (w : world) dev s st :
  log_step st (set_battery_light_locked w dev s st).2.
Proof.
  unfold set_battery_light_locked.
  repeat (apply log_step_bind; [apply log_step_write_int|intros ? ?]).
  apply log_step_refl.
Qed.

Lemma log_step_debug mode c r g b on off st :
  log_step st (ALOG (ALOGD_speaker mode c r g b on off) st).2.
Proof. left. cbn. by rewrite errors_app, app_nil_r. Qed.

Lemma log_step_speaker (w : world) dev state st :
  log_step st (set_speaker_light_locked w dev state st).2.
Proof.
  unfold set_speaker_light_locked.
  destruct dev as [d|]; [|apply log_step_refl].
  destruct state as [s|].
  - apply log_step_bind; [apply log_step_debug|intros ? st1].
    apply log_step_bind; [|intros ? ?; apply log_step_refl].
    destruct (negb (_ =? 0)).
    + repeat (apply log_step_bind; [apply log_step_write_int|intros ? ?]).
      repeat (apply log_step_bind;
              [destruct (negb (_ =? 0));
               [apply log_step_bind;
                [apply log_step_write_int|intros ? ?; apply log_step_refl]
               |apply log_step_refl]
              |intros ? ?]).
      destruct (negb (_ =? 0));
        [apply log_step_bind;
         [apply log_step_write_int|intros ? ?; apply log_step_refl]
        |apply log_step_refl].
    + repeat (apply log_step_bind; [apply log_step_write_int|intros ? ?]).
      apply log_step_refl.
  - repeat (apply log_step_bind; [apply log_step_write_int|intros ? ?]).
    apply log_step_refl.
Qed.

Lemma log_step_handle (w : world) dev st :
  log_step st (handle_speaker_light_locked w dev st).2.
Proof.
  unfold handle_speaker_light_locked.
  apply log_step_bind; [apply log_step_speaker|intros ? st1].
  apply log_step_bind; [apply log_step_refl|intros st2 st3].
  destruct (negb (_ =? 0));
    [|destruct (negb (_ =? 0))];
    (apply log_step_bind; [|intros ? ?; apply log_step_refl]);
    first [apply log_step_speaker|apply log_step_battery].
Qed.

Lemma log_step_call (w : world) id dev s st :
  log_step st (call (set_light w id dev s) st).2.
Proof.
  destruct (slot_of id) as [sl|] eqn:Hid.
  - rewrite (call_color w id sl dev s st Hid). cbn [snd].
    eapply log_step_trans; [|apply log_step_handle].
    left. by destruct sl.
  - destruct id; try discriminate Hid; cbn [set_light];
      rewrite ?call_backlight, ?call_buttons; apply log_step_write_int.
Qed.

Lemma log_step_run_calls (w : world) cs st :
  log_step st (run_calls w cs st).2.
Proof.
  revert st. induction cs as [|[id dev s] cs IH]; intros st;
    [apply log_step_refl|].
  cbn [run_calls]. apply log_step_bind; [apply log_step_call|].
  intros _ st1. apply IH.
Qed.

(** Over any sequence of calls on the five lights, the error log grows by
    one line at most, and not at all once the flag [already_warned] is
    set, which stays set; so a process logs one error line at most,
    however many writes fail. *)
Theorem hal_logs_one_error (w : world) (cs : list hal_call) (st : hal) :
  let st' := (run_calls w cs st).2 in
  (already_warned st <> 0 ->
   errors (logcat st') = errors (logcat st) /\
   already_warned st' = already_warned st) /\
  (length (errors (logcat st')) <= length (errors (logcat st)) + 1)%nat /\
  (forall fs,
     (length (errors (logcat (run_calls w cs (boot fs)).2)) <= 1)%nat).
Proof.
  assert (Hbound : forall st0,
    (length (errors (logcat (run_calls w cs st0).2))
     <= length (errors (logcat st0)) + 1)%nat).
  { intros st0.
    destruct (log_step_run_calls w cs st0) as [[_ ->]|(_ & _ & p & ->)];
      [lia|]. rewrite length_app. cbn. lia. }
  cbv zeta. split; [|split; [apply Hbound|]].
  - intros Hnz.
    destruct (log_step_run_calls w cs st) as [[Hw He]|(Hz & _)]; [done|].
    by destruct Hnz.
  - intros fs. exact (Hbound (boot fs)).
Qed.

(** The instance after a first call on a kernel without any node: the
    flag is set, and three more failing calls log nothing. *)
Lemma hal_logs_one_error_witness :
  let st := (call (set_light unplugged LIGHT_ID_BACKLIGHT (Some attention_dev)
                             red_flash) (boot ∅)).2 in
  let cs := [HalCall LIGHT_ID_ATTENTION (Some attention_dev) red_flash;
             HalCall LIGHT_ID_BUTTONS (Some attention_dev) red_flash;
             HalCall LIGHT_ID_BATTERY None battery_112233] in
  already_warned st <> 0 /\
  errors (logcat (run_calls unplugged cs st).2) = errors (logcat st).
Proof.
  intros st cs.
  assert (H : already_warned st <> 0) by discriminate.
  split; [exact H|].
  exact (proj1 (proj1 (hal_logs_one_error unplugged cs st) H)).
Defined.

(** ** Calls from several threads *)

Ltac shape_absurd H :=
  cbn [shape] in H;
  lazymatch type of H with
  | _ /\ _ => let H' := fresh in destruct H as [H' _]; discriminate H'
  | _ => discriminate H
  end.

Lemma shape_set_light (w : world) id dev s :
  shape Waiting (set_light w id dev s).
Proof. destruct id; cbn; tauto. Qed.

Lemma run_in_order_snoc calls order j t0 st0 :
  calls !! j = Some t0 ->
  run_in_order calls (order ++ [j]) st0
  = (let (rs, st1) := run_in_order calls order st0 in
     let (r, st2) := call t0 st1 in (rs ++ [(j, r)], st2)).
Proof.
  intros Hj. revert st0. induction order as [|i order IH]; intros st0.
  - cbn [app run_in_order]. rewrite Hj. unfold bind, ret.
    by destruct (call t0 st0).
  - cbn [app run_in_order]. destruct (calls !! i) as [t|]; [|apply IH].
    unfold bind. destruct (call t st0) as [r st1]. rewrite IH.
    destruct (run_in_order calls order st1) as [rs st2]. unfold ret.
    by destruct (call t0 st2).
Qed.

Lemma serial_invariant_start st0 calls :
  serial_invariant st0 calls (start st0 calls).
Proof.
  exists []. cbn. repeat split; try done. constructor.
Qed.

Lemma serial_invariant_step st0 calls j c c' :
  Forall (shape Waiting) calls ->
  serial_invariant st0 calls c -> step_thread j c = Some c' ->
  serial_invariant st0 calls c'.
Proof.
  intros Hcalls (order & Hnd & Hlen & Hfin & Hwait & Hown) Hstep.
  unfold step_thread in Hstep.
  destruct (pool c !! j) as [tj|] eqn:Hj; [|discriminate].
  pose proof (lookup_lt_Some _ _ _ Hj) as Hlt.
  assert (Hnot : ~ In j order \/ exists r, tj = Return r).
  { destruct (in_dec Nat.eq_dec j order) as [Hin|Hin]; [|by left].
    right. destruct (Hfin j Hin) as (r & _ & Hr). exists r. congruence. }
  assert (Horig : owner c g_lock <> Some j -> ~ In j order ->
                  calls !! j = Some tj /\ shape Waiting tj).
  { intros Ho Hin. pose proof (Hwait j Hin Ho) as Heq.
    rewrite Hj in Heq. split; [done|].
    eapply Forall_lookup_1; [exact Hcalls|done]. }
  destruct tj as [a|m k|m k|B cmd k].
  - discriminate.
  - (* the lock is taken *)
    destruct m. destruct (owner c g_lock) as [o|] eqn:Ho; [discriminate|].
    injection Hstep as <-.
    destruct Hnot as [Hin|[r Hr]]; [|discriminate].
    destruct (Horig ltac:(discriminate) Hin) as [Hcj [_ Hk]].
    exists order. cbn [owner pool shared]. rewrite set_owner_same.
    split; [exact Hnd|]. split; [by rewrite length_insert|].
    split; [|split; [|split; [exact Hin|]]].
    + intros i Hi. destruct (Hfin i Hi) as (r & Hr & Hp). exists r.
      split; [exact Hr|]. rewrite list_lookup_insert_ne; [done|].
      intros <-. by destruct Hin.
    + intros i Hi Hoi. rewrite list_lookup_insert_ne by congruence.
      by apply Hwait.
    + exists (pthread_mutex_lock g_lock k), k.
      rewrite list_lookup_insert_eq by done.
      repeat split; try done. by rewrite Hown.
  - (* the lock is given back *)
    destruct m. destruct (owner c g_lock) as [o|] eqn:Ho; [|discriminate].
    destruct (decide (o = j)) as [->|]; [|discriminate].
    injection Hstep as <-.
    destruct Hown as (Hin & t0 & t & Hcj & Hpj & Hsh & Hcall).
    rewrite Hj in Hpj. injection Hpj as <-. cbn [shape] in Hsh.
    destruct Hsh as [_ Hk]. destruct k as [r| | |]; try (shape_absurd Hk).
    cbn [call] in Hcall. unfold ret in Hcall.
    exists (order ++ [j]). cbn [owner pool shared]. rewrite set_owner_same.
    rewrite (run_in_order_snoc calls order j t0 st0 Hcj).
    destruct (run_in_order calls order st0) as [rs st1] eqn:Hrun.
    cbn [fst snd] in *. rewrite <- Hcall. cbn [fst snd].
    split; [|split; [by rewrite length_insert|split; [|split]]].
    + apply NoDup_app. repeat split; [done| |apply NoDup_singleton].
      intros x Hx%list_elem_of_In [->|[]]%list_elem_of_In. by destruct Hin.
    + intros i Hi. apply in_app_iff in Hi as [Hi|[<-|[]]].
      * destruct (Hfin i Hi) as (r' & Hr & Hp). exists r'.
        split; [apply in_app_iff; by left|].
        rewrite list_lookup_insert_ne; [done|]. intros <-. by destruct Hin.
      * exists r. split; [apply in_app_iff; right; by left|].
        by rewrite list_lookup_insert_eq.
    + intros i Hi _. rewrite in_app_iff in Hi.
      assert (i <> j) by (intros ->; apply Hi; right; by left).
      rewrite list_lookup_insert_ne by done.
      apply Hwait; [tauto|congruence].
    + reflexivity.
  - (* a piece of code runs *)
    destruct (cmd (shared c)) as [b st1] eqn:Hcmd. injection Hstep as <-.
    assert (Ho : owner c g_lock = Some j).
    { destruct (decide (owner c g_lock = Some j)) as [|Hne]; [done|].
      destruct Hnot as [Hin|[r Hr]]; [|discriminate].
      destruct (Horig Hne Hin) as [_ Hsh]. shape_absurd Hsh. }
    rewrite Ho in Hown.
    destruct Hown as (Hin & t0 & t & Hcj & Hpj & Hsh & Hcall).
    rewrite Hj in Hpj. injection Hpj as <-. cbn [shape] in Hsh.
    destruct Hsh as [_ Hk]. cbn [call] in Hcall. unfold bind in Hcall.
    rewrite Hcmd in Hcall.
    exists order. cbn [owner pool shared]. rewrite Ho.
    split; [exact Hnd|]. split; [by rewrite length_insert|].
    split; [|split; [|split; [exact Hin|]]].
    + intros i Hi. destruct (Hfin i Hi) as (r & Hr & Hp). exists r.
      split; [exact Hr|]. rewrite list_lookup_insert_ne; [done|].
      intros <-. by destruct Hin.
    + intros i Hi Hoi. rewrite list_lookup_insert_ne by congruence.
      apply Hwait; [done|by rewrite Ho].
    + exists t0, (k b). rewrite list_lookup_insert_eq by done.
      repeat split; try done; apply Hk.
Qed.

Lemma serial_invariant_schedule st0 calls sched c :
  Forall (shape Waiting) calls ->
  schedule sched (start st0 calls) = Some c ->
  serial_invariant st0 calls c.
Proof.
  intros Hcalls. generalize (serial_invariant_start st0 calls).
  generalize (start st0 calls). revert c.
  induction sched as [|j sched IH]; intros c c0 Hinv Hrun.
  - by injection Hrun as <-.
  - cbn [schedule] in Hrun.
    destruct (step_thread j c0) as [c1|] eqn:Hstep; [|discriminate].
    eapply IH; [|exact Hrun]. by eapply serial_invariant_step.
Qed.

Lemma shape_calls (w : world) calls :
  Forall (fun t => exists id dev s, t = set_light w id dev s) calls ->
  Forall (shape Waiting) calls.
Proof.
  intros H. eapply Forall_impl; [exact H|].
  intros t (id & dev & s & ->). apply shape_set_light.
Qed.

Lemma serial_result st0 calls c :
  Forall (shape Waiting) calls ->
  serial_invariant st0 calls c ->
  (forall i t, pool c !! i = Some t -> exists r, t = Return r) ->
  exists order,
    Permutation order (seq 0 (length calls)) /\
    shared c = (run_in_order calls order st0).2 /\
    forall i r, pool c !! i = Some (Return r) ->
                In (i, r) (run_in_order calls order st0).1.
Proof.
  intros Hcalls (order & Hnd & Hlen & Hfin & Hwait & Hown) Hall.
  assert (Ho : owner c g_lock = None).
  { destruct (owner c g_lock) as [j|]; [|done].
    destruct Hown as (_ & t0 & t & _ & Hpj & Hsh & _).
    destruct (Hall _ _ Hpj) as [r ->]. shape_absurd Hsh. }
  rewrite Ho in Hown.
  assert (Hin : forall i, (i < length calls)%nat -> In i order).
  { intros i Hi. destruct (in_dec Nat.eq_dec i order) as [|Hni]; [done|].
    exfalso. pose proof (Hwait i Hni ltac:(rewrite Ho; discriminate)) as Heq.
    destruct (lookup_lt_is_Some_2 calls i Hi) as [t Ht].
    rewrite Ht in Heq. destruct (Hall _ _ Heq) as [r ->].
    pose proof (Forall_lookup_1 _ _ _ _ Hcalls Ht) as Hsh.
    shape_absurd Hsh. }
  exists order. split; [|split; [exact Hown|]].
  - apply NoDup_Permutation; [exact Hnd|apply NoDup_seq|].
    intros i. rewrite elem_of_seq, list_elem_of_In. split.
    + intros Hi. destruct (Hfin i Hi) as (r & _ & Hp).
      apply lookup_lt_Some in Hp. lia.
    + intros [_ Hi]. apply Hin. lia.
  - intros i r Hp. pose proof (lookup_lt_Some _ _ _ Hp) as Hi.
    rewrite Hlen in Hi. destruct (Hfin i (Hin i Hi)) as (r' & Hr & Hp').
    congruence.
Qed.

(** The lock makes the calls atomic: when calls on the five lights have
    run to the end from several threads, however they were scheduled,
    the state is the one the same calls leave when they are made one
    after the other in some order, and each call has returned what it
    returns in that sequence. *)
Theorem calls_are_serialised (w : world) (st0 : hal)
    (calls : list (thread Z)) (sched : list nat) (c : config) :
  Forall (fun t => exists id dev s, t = set_light w id dev s) calls ->
  schedule sched (start st0 calls) = Some c ->
  (forall i t, pool c !! i = Some t -> exists r, t = Return r) ->
  exists order,
    Permutation order (seq 0 (length calls)) /\
    shared c = (run_in_order calls order st0).2 /\
    forall i r, pool c !! i = Some (Return r) ->
                In (i, r) (run_in_order calls order st0).1.
Proof.
  intros Hcalls Hrun Hall. apply shape_calls in Hcalls.
  eapply serial_result; [exact Hcalls| |exact Hall].
  by eapply serial_invariant_schedule.
Qed.

(** No deadlock: as long as one of the calls has not returned, some
    thread can take a step. *)
Theorem calls_never_deadlock (w : world) (st0 : hal)
    (calls : list (thread Z)) (sched : list nat) (c : config) :
  Forall (fun t => exists id dev s, t = set_light w id dev s) calls ->
  schedule sched (start st0 calls) = Some c ->
  (exists i t, pool c !! i = Some t /\ forall r, t <> Return r) ->
  exists j c', step_thread j c = Some c'.
Proof.
  intros Hcalls Hrun (i & t & Hi & Hnr). apply shape_calls in Hcalls.
  destruct (serial_invariant_schedule st0 calls sched c Hcalls Hrun)
    as (order & Hnd & Hlen & Hfin & Hwait & Hown).
  destruct (owner c g_lock) as [j|] eqn:Ho.
  - destruct Hown as (_ & t0 & tj & _ & Hpj & Hsh & _).
    exists j. unfold step_thread. rewrite Hpj.
    destruct tj as [a|m k|m k|B cmd k]; try (shape_absurd Hsh).
    + destruct m. rewrite Ho, decide_True by done. by eexists.
    + destruct (cmd (shared c)). by eexists.
  - assert (Hni : ~ In i order).
    { intros Hin. destruct (Hfin i Hin) as (r & _ & Hr).
      rewrite Hi in Hr. injection Hr as ->. by destruct (Hnr r). }
    pose proof (Hwait i Hni ltac:(discriminate)) as Heq.
    rewrite Hi in Heq. symmetry in Heq.
    pose proof (Forall_lookup_1 _ _ _ _ Hcalls Heq) as Hsh.
    exists i. unfold step_thread. rewrite Hi.
    destruct t as [a|m k|m k|B cmd k]; try (shape_absurd Hsh).
    destruct m. rewrite Ho. by eexists.
Qed.

(** The instance on a backlight call that runs to the end before an
    attention call does. *)
Lemma calls_are_serialised_witness :
  let calls := [set_light healthy LIGHT_ID_ATTENTION (Some attention_dev)
                          red_flash;
                set_light healthy LIGHT_ID_BACKLIGHT (Some attention_dev)
                          red_flash] in
  let sched := [1; 1; 1; 0; 0; 0; 0]%nat in
  exists c order,
    schedule sched (start (boot ∅) calls) = Some c /\
    Permutation order (seq 0 (length calls)) /\
    shared c = (run_in_order calls order (boot ∅)).2.
Proof.
  intros calls sched.
  assert (Hcalls : Forall (fun t => exists id dev s,
                             t = set_light healthy id dev s) calls).
  { repeat constructor; eexists _, _, _; reflexivity. }
  assert (Hpool : option_map pool (schedule sched (start (boot ∅) calls))
                  = Some [Return 0; Return 0]) by (vm_compute; reflexivity).
  destruct (schedule sched (start (boot ∅) calls)) as [c|] eqn:Hrun;
    [|discriminate Hpool].
  injection Hpool as Hpool.
  assert (Hall : forall i t, pool c !! i = Some t -> exists r, t = Return r).
  { intros i t. rewrite Hpool. destruct i as [|[|i]]; cbn [lookup list_lookup];
      intros [= <-]; by eexists. }
  destruct (calls_are_serialised healthy (boot ∅) calls sched c Hcalls Hrun
              Hall) as (order & Hperm & Hst & _).
  exists c, order. by repeat split.
Defined.

(** The instance on an attention call that holds the lock while a
    backlight call waits. *)
Lemma calls_never_deadlock_witness :
  let calls := [set_light healthy LIGHT_ID_ATTENTION (Some attention_dev)
                          red_flash;
                set_light healthy LIGHT_ID_BACKLIGHT (Some attention_dev)
                          red_flash] in
  exists c j c',
    schedule [0%nat] (start (boot ∅) calls) = Some c /\
    step_thread j c = Some c'.
Proof.
  intros calls.
  assert (Hcalls : Forall (fun t => exists id dev s,
                             t = set_light healthy id dev s) calls).
  { repeat constructor; eexists _, _, _; reflexivity. }
  assert (Hrun : exists c, schedule [0%nat] (start (boot ∅) calls) = Some c /\
            exists i t, pool c !! i = Some t /\ forall r, t <> Return r).
  { eexists. split; [reflexivity|]. exists 1%nat. eexists.
    split; [reflexivity|]. intros r. discriminate. }
  destruct Hrun as (c & Hrun & Hleft).
  destruct (calls_never_deadlock healthy (boot ∅) calls [0%nat] c Hcalls Hrun
              Hleft) as (j & c' & Hstep).
  by exists c, j, c'.
Defined.
